(** * pitu: a conversational state-machine runtime

    A shallow embedding of [src/core/flow.ts] (the classes [Flow] and
    [Bot]: [Flow.node], [Bot.flow], [Bot.run], [Bot.internalRun]), of the
    types they use ([RunArgs], [BotConfig], [NodeHandlers], [BotPlugin],
    [FlowResponse]) and of the Twilio plugin, followed by the properties of
    the runtime. Line numbers are those of [src/core/flow.ts].

    Conventions of the embedding:
    - a JavaScript string is a [string] (the bytes of its UTF-8 encoding:
      the separator ['.'] is one byte, and no multi-byte sequence contains
      that byte, so [includes(".")] and [split(".")] read the same on both);
    - an optional property or an unset variable ([node?: string],
      [let next: string | undefined]) is an [option], [None] being
      [undefined];
    - the node registry ([Map<string, NodeHandlers>]) is a [gmap];
    - handlers are programs over the two callbacks they are given, which
      return, throw or never settle, and the engine is written in a monad
      that threads the caller's context object, carries the outcome of each
      promise and records the calls that are made. *)

From Stdlib Require Import String Ascii List Bool Arith Lia.
From stdpp Require Import base gmap strings list.

(** ** JavaScript strings and truthiness *)

Definition dot : ascii := "."%char.

(** [s.includes(sep)] for a one-character [sep] (the source only passes
    ["."]). *)
Fixpoint includes (sep : ascii) (s : string) : bool :=
  match s with
  | EmptyString => false
  | String a s' => Ascii.eqb a sep || includes sep s'
  end.

(** [s.split(sep)] for a one-character [sep]: the pieces between the
    occurrences of [sep], one more than there are occurrences. *)
Fixpoint split (sep : ascii) (s : string) : list string :=
  match s with
  | EmptyString => [EmptyString]
  | String a s' =>
      if Ascii.eqb a sep then EmptyString :: split sep s'
      else match split sep s' with
           | piece :: rest => String a piece :: rest
           | [] => [String a EmptyString]
           end
  end.

(** The part of [s] before its first [sep] (all of [s] when there is
    none): what the specification calls the flow segment of a node id. *)
Fixpoint before_first (sep : ascii) (s : string) : string :=
  match s with
  | EmptyString => EmptyString
  | String a s' =>
      if Ascii.eqb a sep then EmptyString else String a (before_first sep s')
  end.

(** A string is truthy unless it is empty. *)
Definition truthy_string (s : string) : bool := negb (String.eqb s "").

(** Truthiness of a [string | undefined]. *)
Definition truthy (v : option string) : bool :=
  match v with
  | Some s => truthy_string s
  | None => false
  end.

(** Truthiness of a [boolean | undefined]. *)
Definition truthy_flag (v : option bool) : bool :=
  match v with
  | Some b => b
  | None => false
  end.

(** [v || d] for [v : string | undefined] and [d : string]. *)
Definition or_else (v : option string) (d : string) : string :=
  match v with
  | Some s => if truthy_string s then s else d
  | None => d
  end.

(** ** Calls, outcomes and the execution monad *)

(** The calls the runtime makes to handlers and the calls handlers make to
    their callbacks, in the order they happen. The log is only written: no
    definition below reads it. *)
Inductive Event : Type :=
| OnReceiveCalled (nodeId message : string)
| OnEnterCalled (nodeId : string)
| SendCalled (message : string)
| TransitionCalled (nodeId : string).

(** A promise resolves with a value, rejects with an error, or never
    settles. *)
Inductive Outcome (A : Type) : Type :=
| Resolved (a : A)
| Rejected (e : string)
| Pending.
Arguments Resolved {A} a.
Arguments Rejected {A} e.
Arguments Pending {A}.

(** [FlowResponse] ([README.md], API reference): [done] is optional. *)
Record FlowResponse : Type := mkResponse {
  messages : list string;
  next : option string;
  done : option bool
}.

(** [result.messages = messages]: the response [result] with its messages
    replaced. Responses are values here: an alias kept to the object is not
    represented. *)
Definition withMessages (messages : list string) (result : FlowResponse)
    : FlowResponse :=
  {| messages := messages; next := next result; done := done result |}.

(** The part of the Twilio library the plugin uses, which is not part of
    the repository: [new twiml.MessagingResponse()], [t.message(m)], which
    updates [t], and [t.toString()]. Each call returns or throws. *)
Record Twiml : Type := mkTwiml {
  MessagingResponse : Type;
  new_MessagingResponse : Outcome MessagingResponse;
  t_message : MessagingResponse -> string -> Outcome MessagingResponse;
  t_toString : MessagingResponse -> Outcome string
}.

(** [RunArgs] without its [context] field: the context is an object passed
    by reference, so it is the state of the monad below. *)
Record RunArgs : Type := mkArgs {
  node : option string;
  message : option string
}.

(** The variables [messages] and [next] of [internalRun], captured and
    updated by the closures [send] and [transition]. *)
Record Locals : Type := mkLocals {
  l_messages : list string;
  l_next : option string
}.

Section Runtime.

Context {T : Type}.

(** An asynchronous computation over the context object of the call:
    its outcome, the context afterwards, and the calls it made. *)
Definition M (A : Type) : Type := T -> Outcome A * T * list Event.

#[export] Instance M_ret : MRet M := fun A a ctx => (Resolved a, ctx, []).

#[export] Instance M_bind : MBind M := fun A B f m ctx =>
  match m ctx with
  | (Resolved a, ctx1, tr1) =>
      match f a ctx1 with
      | (o, ctx2, tr2) => (o, ctx2, tr1 ++ tr2)
      end
  | (Rejected e, ctx1, tr1) => (Rejected e, ctx1, tr1)
  | (Pending, ctx1, tr1) => (Pending, ctx1, tr1)
  end.

Definition reject {A : Type} (e : string) : M A :=
  fun ctx => (Rejected e, ctx, []).

Definition pending {A : Type} : M A :=
  fun ctx => (Pending, ctx, []).

(** A call into a library, which returns, throws or never returns, and
    touches neither the context nor the engine. *)
Definition library {A : Type} (o : Outcome A) : M A :=
  fun ctx => (o, ctx, []).

Definition record (ev : Event) : M unit :=
  fun ctx => (Resolved tt, ctx, [ev]).

Definition getContext : M T := fun ctx => (Resolved ctx, ctx, []).

Definition setContext (c : T) : M unit := fun _ => (Resolved tt, c, []).

(** ** Handlers

    A handler receives [{ message?, context, send, transition }] and
    returns nothing: all it can do to the engine is call [send] and
    [transition]; it can read and update the context, it can throw, and
    it can return a promise that never settles. [Handler] is the type of
    such programs. *)
Inductive Handler : Type :=
| Return
| Throw (e : string)
| Hang
| Send (message : string) (k : Handler)
| Transition (nodeId : string) (k : Handler)
| GetContext (k : T -> Handler)
| SetContext (c : T) (k : Handler).

(** [NodeHandlers] ([src/types/node-handlers.ts]); [end_] is the property
    [end]. [onReceive] takes the [message] of its argument bundle. *)
Record NodeHandlers : Type := mkNode {
  end_ : option bool;
  onEnter : option Handler;
  onReceive : option (string -> Handler)
}.

(** [BotPlugin]. [intercept(context, next)]: the
    [context] argument is the context object of the call, which the monad
    carries; [next] is a thunk, run only where the plugin runs it. *)
Record BotPlugin : Type := mkPlugin {
  intercept : option (M FlowResponse -> M FlowResponse)
}.

Record BotConfig : Type := mkConfig {
  defaultStartNode : string;
  plugins : option (list BotPlugin)
}.

Record Bot : Type := mkBot {
  config : BotConfig;
  stateManager : gmap string NodeHandlers
}.

(** ** class Flow *)

(** [Flow.node(id, handlers)], [flow.ts] lines 67-69, on the registry the
    flow shares with its bot. *)
Definition Flow_node (flowName : string) (id : string) (handlers : NodeHandlers)
    (stateManager : gmap string NodeHandlers) : gmap string NodeHandlers :=
  <[flowName +:+ "." +:+ id := handlers]> stateManager.

(** ** class Bot *)

(** [new Bot(config)]. *)
Definition Bot_new (config : BotConfig) : Bot :=
  {| config := config; stateManager := ∅ |}.

(** [Bot.flow(name, builder)]: the builder is the sequence of [flow.node]
    calls it makes on the [Flow] it is handed. *)
Definition Bot_flow (name : string) (builder : list (string * NodeHandlers))
    (bot : Bot) : Bot :=
  {| config := config bot;
     stateManager :=
       fold_left (fun sm call => Flow_node name call.1 call.2 sm)
                 builder (stateManager bot) |}.

(** [const messages: string[] = []; let next: string | undefined;] *)
Definition fresh : Locals := {| l_messages := []; l_next := None |}.

(** The closure [send] of [internalRun]. *)
Definition send (message : string) (l : Locals) : Locals :=
  {| l_messages := l_messages l ++ [message]; l_next := l_next l |}.

(** The closure [transition] of [internalRun]; [currentNodeId] is the
    constant it captures. The destructuring [[currentFlowName] = ...] takes
    the first piece. *)
Definition transition (currentNodeId : string) (nodeId : string) (l : Locals)
    : Locals :=
  let currentFlowName :=
    match split dot currentNodeId with
    | first :: _ => first
    | [] => "undefined"
    end in
  {| l_messages := l_messages l;
     l_next := Some (if includes dot nodeId then nodeId
                     else currentFlowName +:+ "." +:+ nodeId) |}.

(** Running a handler against the closures of one [internalRun] call. *)
Fixpoint invoke (currentNodeId : string) (h : Handler) (l : Locals)
    : M Locals :=
  match h with
  | Return => mret l
  | Throw e => reject e
  | Hang => pending
  | Send message k =>
      record (SendCalled message);;
      invoke currentNodeId k (send message l)
  | Transition nodeId k =>
      record (TransitionCalled nodeId);;
      invoke currentNodeId k (transition currentNodeId nodeId l)
  | GetContext k =>
      ctx ← getContext; invoke currentNodeId (k ctx) l
  | SetContext c k =>
      setContext c;; invoke currentNodeId k l
  end.

(** [const isFirstRun = !args.node] *)
Definition isFirstRun (args : RunArgs) : bool := negb (truthy (node args)).

(** [const currentNodeId = args.node || this.config.defaultStartNode] *)
Definition currentNodeId (bot : Bot) (args : RunArgs) : string :=
  or_else (node args) (defaultStartNode (config bot)).

(** [internalRun], lines 176-196: the locals and the [onReceive] call. *)
Definition onReceivePhase (bot : Bot) (args : RunArgs) : M Locals :=
  let l := fresh in
  let node := stateManager bot !! currentNodeId bot args in
  match message args, node ≫= onReceive with
  | Some message, Some onReceive =>
      if truthy_string message then
        record (OnReceiveCalled (currentNodeId bot args) message);;
        invoke (currentNodeId bot args) (onReceive message) l
      else mret l
  | _, _ => mret l
  end.

(** [next || currentNodeId], the key of [finalNode] (line 198). *)
Definition finalNodeId (bot : Bot) (args : RunArgs) (l : Locals) : string :=
  or_else (l_next l) (currentNodeId bot args).

(** [internalRun], lines 198-208: [finalNode] and the [onEnter] call. *)
Definition onEnterPhase (bot : Bot) (args : RunArgs) (l : Locals) : M Locals :=
  let finalNode := stateManager bot !! finalNodeId bot args l in
  if isFirstRun args || truthy (l_next l) then
    match finalNode ≫= onEnter with
    | Some onEnter =>
        record (OnEnterCalled (finalNodeId bot args l));;
        invoke (currentNodeId bot args) onEnter l
    | None => mret l
    end
  else mret l.

(** [internalRun], lines 210-214: the response. [finalNode] is the node
    looked up before [onEnter] ran; [next] is read after it ran. *)
Definition response (bot : Bot) (args : RunArgs) (finalNode : option NodeHandlers)
    (l : Locals) : FlowResponse :=
  {| messages := l_messages l;
     next := if truthy_flag (finalNode ≫= end_) then None
             else Some (or_else (l_next l) (currentNodeId bot args));
     done := finalNode ≫= end_ |}.

(** [Bot.internalRun(args)], lines 175-215. *)
Definition internalRun (bot : Bot) (args : RunArgs) : M FlowResponse :=
  l1 ← onReceivePhase bot args;
  let finalNode := stateManager bot !! finalNodeId bot args l1 in
  l2 ← onEnterPhase bot args l1;
  mret (response bot args finalNode l2).

(** [Bot.run(args)], lines 160-173: the loop over the reversed plugin list
    rebinds [handler]; a plugin without [intercept] leaves it as it is. *)
Definition run (bot : Bot) (args : RunArgs) : M FlowResponse :=
  let plugins := default [] (plugins (config bot)) in
  let handler := internalRun bot args in
  fold_left
    (fun handler plugin =>
       let next := handler in
       match intercept plugin with
       | Some intercept => intercept next
       | None => handler
       end)
    (rev plugins) handler.

(** [result.messages.forEach((m) => t.message(m))]: the calls stop at the
    first one that throws. *)
Fixpoint forEach_message (twiml : Twiml) (messages : list string)
    (t : MessagingResponse twiml) : Outcome (MessagingResponse twiml) :=
  match messages with
  | [] => Resolved t
  | m :: rest =>
      match t_message twiml t m with
      | Resolved t' => forEach_message twiml rest t'
      | Rejected e => Rejected e
      | Pending => Pending
      end
  end.

(** [twilioPlugin()], the statements of its [intercept] in their order:
    the [MessagingResponse] is built before [next] is called, the messages
    are added and printed after it returned. The assignment
    [result.messages = ...] is [withMessages]. *)
Definition twilioPlugin (twiml : Twiml) : BotPlugin :=
  {| intercept := Some (fun next =>
       t ← library (new_MessagingResponse twiml);
       result ← next;
       t ← library (forEach_message twiml (messages result) t);
       printed ← library (t_toString twiml t);
       mret (withMessages [printed] result)) |}.

End Runtime.

(** ** Reading the log of calls *)

(** The arguments of the [send] calls, in call order. *)
Definition sent (tr : list Event) : list string :=
  omap (fun ev => match ev with SendCalled m => Some m | _ => None end) tr.

(** The arguments of the [transition] calls, in call order. *)
Definition transitions (tr : list Event) : list string :=
  omap (fun ev => match ev with TransitionCalled n => Some n | _ => None end) tr.

(** The nodes whose [onEnter] was invoked, in call order. *)
Definition entered (tr : list Event) : list string :=
  omap (fun ev => match ev with OnEnterCalled n => Some n | _ => None end) tr.

(** The nodes whose [onReceive] was invoked, with the message passed. *)
Definition received (tr : list Event) : list (string * string) :=
  omap (fun ev => match ev with
                  | OnReceiveCalled n m => Some (n, m)
                  | _ => None
                  end) tr.

(** Whether an optional property is present. *)
Definition present {A : Type} (o : option A) : bool :=
  match o with
  | Some _ => true
  | None => false
  end.

(** The Transition Resolver as the specification words it: a target that
    contains the separator is returned unchanged, any other is prefixed
    with the flow segment of the current node id and the separator. *)
Definition resolve (currentNodeId target : string) : string :=
  if includes dot target then target
  else before_first dot currentNodeId +:+ "." +:+ target.

(** The plugin chain as the specification words it: the first plugin of
    the list is the outermost wrapper, the last the innermost, around
    [base]. *)
Definition chain {T : Type} (plugins : list (BotPlugin (T := T)))
    (base : M FlowResponse) : M FlowResponse :=
  foldr (fun plugin inner =>
           match intercept plugin with
           | Some intercept => intercept inner
           | None => inner
           end) base plugins.

(** The key of the final node, read off the calls of the [onReceive]
    phase: the resolution of its last [transition] call, or the current
    node id when it made none. *)
Definition finalKey (currentNodeId : string) (tr : list Event) : string :=
  match last (transitions tr) with
  | Some t => resolve currentNodeId t
  | None => currentNodeId
  end.

(** A bot as the build phase leaves it: [new Bot(config)] followed by a
    sequence of [bot.flow(name, builder)] calls. *)
Definition Bot_build {T : Type} (config : BotConfig (T := T))
    (flows : list (string * list (string * NodeHandlers))) : Bot :=
  fold_left (fun bot fl => Bot_flow fl.1 fl.2 bot) flows (Bot_new config).

(** Every key of the registry is a qualified id. *)
Definition qualified_keys {T : Type} (sm : gmap string (NodeHandlers (T := T)))
    : Prop :=
  forall k, is_Some (sm !! k) -> includes dot k = true.

(** A plugin that, run at a context in [S], runs its [next] at contexts
    in [S] only: two [next] that behave alike on [S] make it behave alike
    on [S]. A plugin without [intercept] is one. *)
Definition stays_within {T : Type} (S : T -> Prop) (p : BotPlugin (T := T))
    : Prop :=
  match intercept p with
  | Some g =>
      forall n1 n2 : M FlowResponse,
        (forall c, S c -> n1 c = n2 c) -> forall c, S c -> g n1 c = g n2 c
  | None => True
  end.

(** ** Example bots *)

(** The scenario of the specification's testable properties: flow ["main"]
    with ["welcome"] (greets on entry, moves to ["bye"] on any message) and
    the terminal ["bye"]. *)
Definition welcomeNode {T : Type} : NodeHandlers (T := T) :=
  {| end_ := None;
     onEnter := Some (Send "hi" Return);
     onReceive := Some (fun _ => Transition "bye" Return) |}.

Definition byeNode {T : Type} : NodeHandlers (T := T) :=
  {| end_ := Some true;
     onEnter := Some (Send "later" (Transition "welcome" Return));
     onReceive := None |}.

Definition mainBot {T : Type} (plugins : option (list BotPlugin))
    : Bot (T := T) :=
  Bot_flow "main" [("welcome", welcomeNode); ("bye", byeNode)]
    (Bot_new {| defaultStartNode := "main.welcome"; plugins := plugins |}).

(** The authentication gate of [README.md] (Custom Plugins): the context
    is the optional [userId]; without one the plugin answers itself. *)
Definition authPlugin : BotPlugin (T := option string) :=
  {| intercept := Some (fun next =>
       userId ← getContext;
       if negb (truthy userId) then
         mret {| messages := ["Please authenticate first"];
                 next := Some "auth.login";
                 done := Some false |}
       else next) |}.

(** A stand-in for the Twilio library, in the shape of the example of the
    plugin's doc comment: an XML declaration and a [Response] element with
    one [Message] element per message, the characters [&], [<] and [>]
    escaped; [t.message] throws on a control character that XML 1.0 does
    not allow. The properties below hold for every [Twiml]; this one only
    makes the examples evaluate. *)
Definition quote : string := String (ascii_of_nat 34) EmptyString.

Fixpoint escape (m : string) : string :=
  match m with
  | EmptyString => EmptyString
  | String a m' =>
      (if Ascii.eqb a "&" then "&amp;"
       else if Ascii.eqb a "<" then "&lt;"
       else if Ascii.eqb a ">" then "&gt;"
       else String a EmptyString) +:+ escape m'
  end.

Fixpoint legal (m : string) : bool :=
  match m with
  | EmptyString => true
  | String a m' =>
      let n := nat_of_ascii a in
      (Nat.leb 32 n || Nat.eqb n 9 || Nat.eqb n 10 || Nat.eqb n 13) && legal m'
  end.

Definition docTwiml : Twiml :=
  {| MessagingResponse := list string;
     new_MessagingResponse := Resolved [];
     t_message := fun t m =>
       if legal m then Resolved (t ++ [m])
       else Rejected "Invalid character in string";
     t_toString := fun t =>
       Resolved
         ("<?xml version=" +:+ quote +:+ "1.0" +:+ quote +:+ " encoding="
          +:+ quote +:+ "UTF-8" +:+ quote +:+ "?>" +:+
          match t with
          | [] => "<Response/>"
          | _ =>
              "<Response>" +:+
              fold_right (fun m rest =>
                            "<Message>" +:+ escape m +:+ "</Message>" +:+ rest)
                         "</Response>" t
          end) |}.

(** Two flows: ["a.x"] moves to the other flow on a message, ["a.z"] moves
    to a node nobody registered, and ["c.y"] asks for ["b"] on entry. *)
Definition crossBot {T : Type} : Bot (T := T) :=
  Bot_build {| defaultStartNode := "a.x"; plugins := None |}
    [("a", [("x", {| end_ := Some false;
                     onEnter := None;
                     onReceive := Some (fun _ => Transition "c.y" Return) |});
            ("z", {| end_ := None;
                     onEnter := None;
                     onReceive := Some (fun m =>
                       Send m (Transition "ghost" Return)) |})]);
     ("c", [("y", {| end_ := None;
                     onEnter := Some (Send "in c" (Transition "b" Return));
                     onReceive := None |})])].

(** The answer of the rate limiter of [README.md] once the limit is
    reached, as a plugin that always gives it. *)
Definition limitReached : FlowResponse :=
  {| messages := ["Rate limit exceeded. Please try again later."];
     next := None;
     done := Some true |}.

Definition closedPlugin {T : Type} : BotPlugin (T := T) :=
  {| intercept := Some (fun _ => mret limitReached) |}.

(** ** Properties of handlers and bots used further on *)

(** A handler that cannot throw, whatever context it reads. *)
Fixpoint never_throws {T : Type} (h : Handler (T := T)) : Prop :=
  match h with
  | Return => True
  | Throw _ => False
  | Hang => True
  | Send _ k => never_throws k
  | Transition _ k => never_throws k
  | GetContext k => forall ctx, never_throws (k ctx)
  | SetContext _ k => never_throws k
  end.

(** A handler that returns or throws, whatever context it reads: its
    promise settles. *)
Fixpoint always_settles {T : Type} (h : Handler (T := T)) : Prop :=
  match h with
  | Return => True
  | Throw _ => True
  | Hang => False
  | Send _ k => always_settles k
  | Transition _ k => always_settles k
  | GetContext k => forall ctx, always_settles (k ctx)
  | SetContext _ k => always_settles k
  end.

(** A handler that cannot update the context, whatever context it reads. *)
Fixpoint never_writes {T : Type} (h : Handler (T := T)) : Prop :=
  match h with
  | Return => True
  | Throw _ => True
  | Hang => True
  | Send _ k => never_writes k
  | Transition _ k => never_writes k
  | GetContext k => forall ctx, never_writes (k ctx)
  | SetContext _ _ => False
  end.

(** Every handler of the registry, on every message, satisfies [P]. *)
Definition all_handlers {T : Type} (P : Handler (T := T) -> Prop)
    (sm : gmap string (NodeHandlers (T := T))) : Prop :=
  forall k n, sm !! k = Some n ->
    (forall h, onEnter n = Some h -> P h) /\
    (forall h m, onReceive n = Some h -> P (h m)).

(** The bot [bot] as it would be with the plugin list [ps] in its
    configuration. *)
Definition withPlugins {T : Type} (ps : option (list (BotPlugin (T := T))))
    (bot : Bot (T := T)) : Bot :=
  {| config := {| defaultStartNode := defaultStartNode (config bot);
                  plugins := ps |};
     stateManager := stateManager bot |}.

(** * Properties *)

(** ** Strings *)

Lemma split_nonempty (sep : ascii) (s : string) : split sep s <> [].
Proof.
  destruct s as [|a s]; simpl; [discriminate|].
  destruct (Ascii.eqb a sep); [discriminate|].
  destruct (split sep s); discriminate.
Qed.

(** The first piece of [split] is the part before the first separator. *)
Lemma split_first (s : string) :
  match split dot s with first :: _ => first | [] => "undefined" end
  = before_first dot s.
Proof.
  induction s as [|a s IH]; simpl; [reflexivity|].
  destruct (Ascii.eqb a dot); [reflexivity|].
  pose proof (split_nonempty dot s) as Hne.
  destruct (split dot s); simpl; congruence.
Qed.

Lemma includes_append_dot (f i : string) :
  includes dot (f +:+ "." +:+ i) = true.
Proof.
  induction f as [|a f IH]; simpl; [reflexivity|].
  rewrite IH. apply orb_true_r.
Qed.

Lemma includes_truthy (s : string) :
  includes dot s = true -> truthy_string s = true.
Proof. destruct s; [discriminate | reflexivity]. Qed.

Lemma before_first_no_dot (s : string) :
  includes dot (before_first dot s) = false.
Proof.
  induction s as [|a s IH]; simpl; [reflexivity|].
  destruct (Ascii.eqb a dot) eqn:E; simpl; [reflexivity|].
  rewrite E. exact IH.
Qed.

Lemma before_first_prefix (s : string) :
  exists rest, s = before_first dot s +:+ rest /\
    (includes dot s = true -> exists rest', rest = String dot rest').
Proof.
  induction s as [|a s [rest [IH1 IH2]]]; simpl.
  - exists EmptyString. split; [reflexivity | discriminate].
  - destruct (Ascii.eqb a dot) eqn:E; simpl.
    + apply Ascii.eqb_eq in E. subst a.
      exists (String dot s). split; [reflexivity | eauto].
    + exists rest. split; [|exact IH2].
      change (String a s = String a (before_first dot s +:+ rest)).
      f_equal. exact IH1.
Qed.

Lemma resolve_includes (c t : string) : includes dot (resolve c t) = true.
Proof.
  unfold resolve. destruct (includes dot t) eqn:E; [exact E|].
  apply includes_append_dot.
Qed.

Lemma resolve_truthy (c t : string) : truthy (Some (resolve c t)) = true.
Proof. apply includes_truthy, resolve_includes. Qed.

Lemma or_else_resolve (c t d : string) : or_else (Some (resolve c t)) d = resolve c t.
Proof.
  unfold or_else.
  rewrite (includes_truthy _ (resolve_includes c t)). reflexivity.
Qed.

Lemma truthy_false (v : option string) :
  truthy v = false <-> v = None \/ v = Some "".
Proof.
  destruct v as [[|a s]|]; simpl; split; intros H; auto; try discriminate.
  destruct H as [H|H]; discriminate.
Qed.

(** ** The closures and the handler calls *)

Section Properties.

Context {T : Type}.

(** Unfolding the monad at a context. *)
Ltac run_M :=
  unfold mbind, mret, M_bind, M_ret, record, reject, pending, library,
    getContext, setContext in *;
  simpl in *.

Lemma transition_resolve (c t : string) (l : Locals) :
  transition c t l = {| l_messages := l_messages l; l_next := Some (resolve c t) |}.
Proof. unfold transition, resolve. rewrite split_first. reflexivity. Qed.

(** What a handler call does to the locals, read off the calls it made:
    the messages grow by the [send] arguments, [next] is the resolution of
    the last [transition] argument, and no handler is invoked from inside. *)
Lemma invoke_calls (c : string) (h : Handler) :
  forall (l : Locals) (ctx : T) o ctx' tr,
    invoke c h l ctx = (o, ctx', tr) ->
    entered tr = [] /\ received tr = [] /\
    forall l', o = Resolved l' ->
      l_messages l' = l_messages l ++ sent tr /\
      l_next l' = match last (transitions tr) with
                  | Some t => Some (resolve c t)
                  | None => l_next l
                  end.
Proof.
  induction h as [|e| |m k IH|n k IH|k IH|x k IH]; intros l ctx o ctx' tr E.
  - inversion E; subst. split; [|split]; try reflexivity.
    intros l' Hl'; inversion Hl'; subst; simpl.
    by rewrite app_nil_r.
  - inversion E; subst. split; [|split]; try reflexivity. discriminate.
  - inversion E; subst. split; [|split]; try reflexivity. discriminate.
  - simpl in E; run_M. destruct (invoke c k (send m l) ctx) as [[o1 c1] t1] eqn:E1.
    inversion E; subst. destruct (IH _ _ _ _ _ E1) as (He & Hr & Hl).
    split; [exact He|split; [exact Hr|]].
    intros l' Hl'. destruct (Hl _ Hl') as [Hm Hn]. split; [|exact Hn].
    rewrite Hm. simpl. by rewrite <- app_assoc.
  - simpl in E; run_M.
    destruct (invoke c k (transition c n l) ctx) as [[o1 c1] t1] eqn:E1.
    inversion E; subst. destruct (IH _ _ _ _ _ E1) as (He & Hr & Hl).
    split; [exact He|split; [exact Hr|]].
    intros l' Hl'. destruct (Hl _ Hl') as [Hm Hn]. split.
    + rewrite Hm. by rewrite transition_resolve.
    + rewrite Hn. change (transitions (TransitionCalled n :: t1))
        with (n :: transitions t1).
      rewrite last_cons, transition_resolve. simpl.
      destruct (last (transitions t1)); reflexivity.
  - simpl in E; run_M. destruct (invoke c (k ctx) l ctx) as [[o1 c1] t1] eqn:E1.
    inversion E; subst. exact (IH _ _ _ _ _ _ E1).
  - simpl in E; run_M. destruct (invoke c k l x) as [[o1 c1] t1] eqn:E1.
    inversion E; subst. exact (IH _ _ _ _ _ E1).
Qed.

(** ** The two phases of [internalRun] *)

Lemma onReceivePhase_unfold (bot : Bot) (args : RunArgs) (ctx : T) :
  onReceivePhase bot args ctx =
  match message args, stateManager bot !! currentNodeId bot args ≫= onReceive with
  | Some m, Some h =>
      if truthy_string m then
        let '(o, ctx', tr) := invoke (currentNodeId bot args) (h m) fresh ctx in
        (o, ctx', OnReceiveCalled (currentNodeId bot args) m :: tr)
      else (Resolved fresh, ctx, [])
  | _, _ => (Resolved fresh, ctx, [])
  end.
Proof.
  unfold onReceivePhase.
  destruct (message args) as [m|]; [|reflexivity..].
  destruct (stateManager bot !! currentNodeId bot args ≫= onReceive) as [h|];
    [|reflexivity..].
  destruct (truthy_string m); [|reflexivity..].
  run_M. destruct (invoke _ _ _ _) as [[o c] t]. reflexivity.
Qed.

Lemma onEnterPhase_unfold (bot : Bot) (args : RunArgs) (l : Locals) (ctx : T) :
  onEnterPhase bot args l ctx =
  if isFirstRun args || truthy (l_next l) then
    match stateManager bot !! finalNodeId bot args l ≫= onEnter with
    | Some h =>
        let '(o, ctx', tr) := invoke (currentNodeId bot args) h l ctx in
        (o, ctx', OnEnterCalled (finalNodeId bot args l) :: tr)
    | None => (Resolved l, ctx, [])
    end
  else (Resolved l, ctx, []).
Proof.
  unfold onEnterPhase.
  destruct (isFirstRun args || truthy (l_next l)); [|reflexivity..].
  destruct (stateManager bot !! finalNodeId bot args l ≫= onEnter) as [h|];
    [|reflexivity..].
  run_M. destruct (invoke _ _ _ _) as [[o c] t]. reflexivity.
Qed.

Lemma internalRun_unfold (bot : Bot) (args : RunArgs) (ctx : T) :
  internalRun bot args ctx =
  match onReceivePhase bot args ctx with
  | (Resolved l1, ctx1, tr1) =>
      match onEnterPhase bot args l1 ctx1 with
      | (Resolved l2, ctx2, tr2) =>
          (Resolved (response bot args
                       (stateManager bot !! finalNodeId bot args l1) l2),
           ctx2, tr1 ++ tr2)
      | (Rejected e, ctx2, tr2) => (Rejected e, ctx2, tr1 ++ tr2)
      | (Pending, ctx2, tr2) => (Pending, ctx2, tr1 ++ tr2)
      end
  | (Rejected e, ctx1, tr1) => (Rejected e, ctx1, tr1)
  | (Pending, ctx1, tr1) => (Pending, ctx1, tr1)
  end.
Proof.
  unfold internalRun. run_M.
  destruct (onReceivePhase bot args ctx) as [[[l1|e|] ctx1] tr1]; [|reflexivity..].
  destruct (onEnterPhase bot args l1 ctx1) as [[[l2|e|] ctx2] tr2]; simpl;
    by rewrite ?app_nil_r.
Qed.

(** The [onReceive] phase: which calls it makes and what it leaves in the
    locals. *)
Lemma onReceivePhase_calls (bot : Bot) (args : RunArgs) (ctx : T) o ctx' tr :
  onReceivePhase bot args ctx = (o, ctx', tr) ->
  entered tr = [] /\
  received tr =
    (match message args, stateManager bot !! currentNodeId bot args ≫= onReceive with
     | Some m, Some _ =>
         if truthy_string m then [(currentNodeId bot args, m)] else []
     | _, _ => []
     end) /\
  forall l, o = Resolved l ->
    l_messages l = sent tr /\
    l_next l = resolve (currentNodeId bot args) <$> last (transitions tr).
Proof.
  rewrite onReceivePhase_unfold.
  destruct (message args) as [m|];
    [destruct (stateManager bot !! currentNodeId bot args ≫= onReceive) as [h|];
     [destruct (truthy_string m)|]|];
    try (intros E; inversion E; subst; split; [|split]; try reflexivity;
         intros l Hl; inversion Hl; subst; split; reflexivity).
  destruct (invoke _ _ _ _) as [[o1 c1] t1] eqn:E1. intros E.
  inversion E; subst. destruct (invoke_calls _ _ _ _ _ _ _ E1) as (He & Hr & Hl).
  split; [exact He|]. split; [simpl; by rewrite Hr|].
  intros l Hres. destruct (Hl _ Hres) as [Hm Hn]. split; [exact Hm|].
  rewrite Hn. change (transitions (OnReceiveCalled (currentNodeId bot args) m :: t1))
    with (transitions t1).
  destruct (last (transitions t1)); reflexivity.
Qed.

(** The [onEnter] phase, likewise. *)
Lemma onEnterPhase_calls (bot : Bot) (args : RunArgs) (l : Locals) (ctx : T)
    o ctx' tr :
  onEnterPhase bot args l ctx = (o, ctx', tr) ->
  received tr = [] /\
  entered tr =
    (if (isFirstRun args || truthy (l_next l))
        && present (stateManager bot !! finalNodeId bot args l ≫= onEnter)
     then [finalNodeId bot args l] else []) /\
  forall l', o = Resolved l' ->
    l_messages l' = l_messages l ++ sent tr /\
    l_next l' = match last (transitions tr) with
                | Some t => Some (resolve (currentNodeId bot args) t)
                | None => l_next l
                end.
Proof.
  rewrite onEnterPhase_unfold.
  destruct (isFirstRun args || truthy (l_next l)); simpl;
    [destruct (stateManager bot !! finalNodeId bot args l ≫= onEnter) as [h|];
     simpl|];
    try (intros E; inversion E; subst; split; [|split]; try reflexivity;
         intros l' Hl; inversion Hl; subst; split;
         [by rewrite app_nil_r | reflexivity]).
  destruct (invoke _ _ _ _) as [[o1 c1] t1] eqn:E1. intros E.
  inversion E; subst. destruct (invoke_calls _ _ _ _ _ _ _ E1) as (He & Hr & Hl).
  split; [exact Hr|]. split; [simpl; by rewrite He|].
  intros l' Hres. destruct (Hl _ Hres) as [Hm Hn]. split; [exact Hm|exact Hn].
Qed.

(** ** The registry *)

Lemma Flow_node_qualified f i h (sm : gmap string (NodeHandlers (T := T))) :
  qualified_keys sm -> qualified_keys (Flow_node f i h sm).
Proof.
  intros Hsm k. unfold Flow_node.
  destruct (decide (f +:+ "." +:+ i = k)) as [<-|Hne].
  - intros _. apply includes_append_dot.
  - rewrite lookup_insert_ne by exact Hne. apply Hsm.
Qed.

Lemma Bot_flow_qualified name builder (bot : Bot (T := T)) :
  qualified_keys (stateManager bot) ->
  qualified_keys (stateManager (Bot_flow name builder bot)).
Proof.
  unfold Bot_flow; simpl. generalize (stateManager bot).
  induction builder as [|[i h] builder IH]; intros sm Hsm; simpl; [exact Hsm|].
  apply IH, Flow_node_qualified, Hsm.
Qed.

Lemma Bot_build_qualified cfg flows :
  qualified_keys (stateManager (Bot_build (T := T) cfg flows)).
Proof.
  unfold Bot_build.
  assert (H0 : qualified_keys (stateManager (Bot_new (T := T) cfg))).
  { intros k [x Hx]. simpl in Hx. by rewrite lookup_empty in Hx. }
  revert H0. generalize (Bot_new (T := T) cfg).
  induction flows as [|[name b] flows IH]; intros bot Hbot; simpl; [exact Hbot|].
  apply IH, Bot_flow_qualified, Hbot.
Qed.

(** C9: [flow.node(i, h)] on a flow named [f] stores [h] under exactly the
    key [f.i] and changes no other entry; a later call that produces the
    same key replaces the earlier definition; the key contains the
    separator, and so does every key of a registry built by [flow] calls. *)
Theorem Flow_node_registers (f i : string) (h : NodeHandlers (T := T))
    (sm : gmap string NodeHandlers) :
  Flow_node f i h sm !! (f +:+ "." +:+ i) = Some h /\
  (forall k, k <> f +:+ "." +:+ i -> Flow_node f i h sm !! k = sm !! k) /\
  (forall f' i' h', f' +:+ "." +:+ i' = f +:+ "." +:+ i ->
     Flow_node f' i' h' (Flow_node f i h sm) = Flow_node f' i' h' sm) /\
  includes dot (f +:+ "." +:+ i) = true /\
  (forall cfg flows k,
     is_Some (stateManager (Bot_build (T := T) cfg flows) !! k) ->
     includes dot k = true).
Proof.
  unfold Flow_node. split; [apply lookup_insert_eq|].
  split; [intros k Hk; apply lookup_insert_ne; congruence|].
  split; [intros f' i' h' ->; apply insert_insert_eq|].
  split; [apply includes_append_dot|].
  intros cfg flows. apply Bot_build_qualified.
Qed.

(** ** Transition resolution *)

(** ** Which handlers run *)

Lemma onReceivePhase_final (bot : Bot (T := T)) (args : RunArgs) (ctx : T)
    l1 ctx1 tr1 :
  onReceivePhase bot args ctx = (Resolved l1, ctx1, tr1) ->
  finalNodeId bot args l1 = finalKey (currentNodeId bot args) tr1 /\
  truthy (l_next l1) = negb (bool_decide (transitions tr1 = [])).
Proof.
  intros E. destruct (onReceivePhase_calls _ _ _ _ _ _ E) as (_ & _ & Hl).
  destruct (Hl _ eq_refl) as [_ Hn]. unfold finalNodeId, finalKey. rewrite Hn.
  destruct (last (transitions tr1)) as [t|] eqn:El; simpl.
  - rewrite (includes_truthy _ (resolve_includes _ t)). split; [reflexivity|].
    rewrite bool_decide_eq_false_2; [reflexivity|].
    intros Hnil. rewrite Hnil in El. discriminate.
  - apply last_None in El. rewrite El. split; reflexivity.
Qed.

Lemma onReceivePhase_no_message (bot : Bot (T := T)) (args : RunArgs) (ctx : T) :
  truthy (message args) = false ->
  onReceivePhase bot args ctx = (Resolved fresh, ctx, []).
Proof.
  intros H. rewrite onReceivePhase_unfold.
  destruct (message args) as [m|]; [|reflexivity..]. simpl in H. rewrite H.
  destruct (stateManager bot !! currentNodeId bot args ≫= onReceive); reflexivity.
Qed.

Lemma entered_internalRun (bot : Bot (T := T)) (args : RunArgs) (ctx : T) :
  entered (internalRun bot args ctx).2 =
  match onReceivePhase bot args ctx with
  | (Resolved l1, _, _) =>
      if (isFirstRun args || truthy (l_next l1))
         && present (stateManager bot !! finalNodeId bot args l1 ≫= onEnter)
      then [finalNodeId bot args l1] else []
  | (Rejected _, _, _) => []
  | (Pending, _, _) => []
  end.
Proof.
  rewrite internalRun_unfold.
  destruct (onReceivePhase bot args ctx) as [[[l1|e|] ctx1] tr1] eqn:E1.
  - destruct (onReceivePhase_calls _ _ _ _ _ _ E1) as (He1 & _ & _).
    destruct (onEnterPhase bot args l1 ctx1) as [[o2 ctx2] tr2] eqn:E2.
    destruct (onEnterPhase_calls _ _ _ _ _ _ _ E2) as (_ & He2 & _).
    assert (Htr : entered (tr1 ++ tr2) =
      if (isFirstRun args || truthy (l_next l1))
         && present (stateManager bot !! finalNodeId bot args l1 ≫= onEnter)
      then [finalNodeId bot args l1] else []).
    { unfold entered in *. rewrite omap_app, He1, He2. reflexivity. }
    destruct o2; exact Htr.
  - destruct (onReceivePhase_calls _ _ _ _ _ _ E1) as (He1 & _ & _).
    exact He1.
  - destruct (onReceivePhase_calls _ _ _ _ _ _ E1) as (He1 & _ & _).
    exact He1.
Qed.

Lemma present_is_Some {A : Type} (o : option A) : present o = true <-> is_Some o.
Proof.
  destruct o; simpl; split; intros H; eauto; try discriminate.
  destruct H; discriminate.
Qed.

Lemma isFirstRun_true (args : RunArgs) :
  isFirstRun args = true <-> node args = None \/ node args = Some "".
Proof.
  unfold isFirstRun. rewrite negb_true_iff. apply truthy_false.
Qed.

(** C1 (as amended): [internalRun] invokes [onEnter] at most once; when the
    [onReceive] phase rejects or never settles, not at all; otherwise it
    invokes the final node's [onEnter] if and only if that handler is
    present and either the [node] argument was absent or the empty string,
    or [transition] was called during the [onReceive] phase. So a call
    without [node] and without [message] invokes the default start node's
    [onEnter] when present, and a call with a non-empty [node] whose
    [onReceive] phase makes no [transition] call invokes no [onEnter].
    Invoking means running: under the condition the call is the final
    node's handler run on the locals and the context the [onReceive] phase
    left, followed by the response; without it the call is the response on
    those locals and no more. *)
Theorem onEnter_invoked_iff (bot : Bot (T := T)) (args : RunArgs) (ctx : T) :
  let c := currentNodeId bot args in
  let tr := (internalRun bot args ctx).2 in
  let o1 := (onReceivePhase bot args ctx).1.1 in
  let ctx1 := (onReceivePhase bot args ctx).1.2 in
  let tr1 := (onReceivePhase bot args ctx).2 in
  length (entered tr) <= 1 /\
  (forall e, o1 = Rejected e -> entered tr = []) /\
  (forall l1, o1 = Resolved l1 ->
     forall id, id ∈ entered tr <->
       id = finalKey c tr1 /\
       is_Some (stateManager bot !! id ≫= onEnter) /\
       (node args = None \/ node args = Some "" \/ transitions tr1 <> [])) /\
  (node args = None -> message args = None ->
     entered tr =
       if present (stateManager bot !! defaultStartNode (config bot) ≫= onEnter)
       then [defaultStartNode (config bot)] else []) /\
  (forall n l1, node args = Some n -> n <> "" -> o1 = Resolved l1 ->
     transitions tr1 = [] -> entered tr = []) /\
  (o1 = Pending -> entered tr = []) /\
  (forall l1 h, o1 = Resolved l1 ->
     stateManager bot !! finalKey c tr1 ≫= onEnter = Some h ->
     (node args = None \/ node args = Some "" \/ transitions tr1 <> []) ->
     internalRun bot args ctx =
       (let '(o2, ctx2, tr2) := invoke c h l1 ctx1 in
        (match o2 with
         | Resolved l2 =>
             Resolved (response bot args
                         (stateManager bot !! finalKey c tr1) l2)
         | Rejected e => Rejected e
         | Pending => Pending
         end, ctx2, tr1 ++ OnEnterCalled (finalKey c tr1) :: tr2))) /\
  (forall l1, o1 = Resolved l1 ->
     stateManager bot !! finalKey c tr1 ≫= onEnter = None \/
     (node args <> None /\ node args <> Some "" /\ transitions tr1 = []) ->
     internalRun bot args ctx =
       (Resolved (response bot args (stateManager bot !! finalKey c tr1) l1),
        ctx1, tr1)).
Proof.
  intros c tr o1 ctx1 tr1. subst tr o1 ctx1 tr1. rewrite entered_internalRun.
  split; [|split; [|split; [|split; [|split; [|split; [|split]]]]]].
  - destruct (onReceivePhase bot args ctx) as [[[l1|e|] ctx1] tr1]; simpl;
      [|lia..]. destruct (_ && _); simpl; lia.
  - intros e He.
    destruct (onReceivePhase bot args ctx) as [[[l1|e'|] ctx1] tr1];
      simpl in *; [discriminate | reflexivity | reflexivity].
  - intros l1 Hl1 id.
    destruct (onReceivePhase bot args ctx) as [[o ctx1] tr1] eqn:E1.
    simpl in Hl1. subst o. simpl.
    destruct (onReceivePhase_final _ _ _ _ _ _ E1) as [Hf Ht].
    rewrite Hf, Ht. fold c. unfold isFirstRun.
    destruct (truthy (node args)) eqn:En; simpl.
    + assert (Hnode : ~ (node args = None \/ node args = Some "")).
      { intros H. apply truthy_false in H. congruence. }
      destruct (bool_decide_reflect (transitions tr1 = [])) as [Hnil|Hnil]; simpl.
      * split; [intros H; inversion H|]. intros (_ & _ & [H|[H|H]]); tauto.
      * destruct (present _) eqn:Ep.
        -- rewrite list_elem_of_singleton. split.
           ++ intros ->. split; [reflexivity|]. split; [|tauto].
              by apply present_is_Some.
           ++ tauto.
        -- split; [intros H; inversion H|]. intros (-> & Hp & _).
           apply present_is_Some in Hp. congruence.
    + apply truthy_false in En.
      destruct (present _) eqn:Ep.
      * rewrite list_elem_of_singleton. split.
        -- intros ->. split; [reflexivity|]. split; [|tauto].
           by apply present_is_Some.
        -- tauto.
      * split; [intros H; inversion H|]. intros (-> & Hp & _).
        apply present_is_Some in Hp. congruence.
  - intros Hn Hm. rewrite onReceivePhase_no_message by (by rewrite Hm).
    unfold isFirstRun, finalNodeId, currentNodeId. rewrite Hn. reflexivity.
  - intros n l1 Hn Hne Hl1 Hnil.
    destruct (onReceivePhase bot args ctx) as [[o ctx1] tr1] eqn:E1.
    simpl in Hl1, Hnil. subst o.
    destruct (onReceivePhase_final _ _ _ _ _ _ E1) as [_ Ht].
    rewrite Ht, Hnil. unfold isFirstRun. rewrite Hn. simpl.
    unfold truthy_string. destruct (String.eqb_spec n ""); [congruence|].
    reflexivity.
  - intros Hp.
    destruct (onReceivePhase bot args ctx) as [[[l1|e'|] ctx1] tr1];
      simpl in *; [discriminate | discriminate | reflexivity].
  - intros l1 h Hl1 Hh Hcond. rewrite internalRun_unfold.
    destruct (onReceivePhase bot args ctx) as [[o ctx1] tr1] eqn:E1.
    simpl in Hl1, Hh, Hcond |- *. subst o.
    destruct (onReceivePhase_final _ _ _ _ _ _ E1) as [Hf Ht]. fold c in Hf.
    rewrite onEnterPhase_unfold, Hf, Ht, Hh. fold c.
    assert (Hgo : isFirstRun args || negb (bool_decide (transitions tr1 = []))
                  = true).
    { destruct Hcond as [H|[H|H]].
      - rewrite (proj2 (isFirstRun_true args)) by tauto. reflexivity.
      - rewrite (proj2 (isFirstRun_true args)) by tauto. reflexivity.
      - rewrite (bool_decide_eq_false_2 _ H). apply orb_true_r. }
    rewrite Hgo.
    destruct (invoke c h l1 ctx1) as [[[l2|e|] ctx2] tr2]; reflexivity.
  - intros l1 Hl1 Hcond. rewrite internalRun_unfold.
    destruct (onReceivePhase bot args ctx) as [[o ctx1] tr1] eqn:E1.
    simpl in Hl1, Hcond |- *. subst o.
    destruct (onReceivePhase_final _ _ _ _ _ _ E1) as [Hf Ht]. fold c in Hf.
    rewrite onEnterPhase_unfold, Hf, Ht. fold c.
    destruct Hcond as [Hnone|(Hn1 & Hn2 & Hnil)].
    + rewrite Hnone. destruct (_ || _); simpl; by rewrite app_nil_r.
    + assert (Hgo : isFirstRun args || negb (bool_decide (transitions tr1 = []))
                    = false).
      { rewrite (bool_decide_eq_true_2 _ Hnil), orb_false_r.
        destruct (isFirstRun args) eqn:Ef; [|reflexivity].
        apply isFirstRun_true in Ef. tauto. }
      rewrite Hgo. simpl. by rewrite app_nil_r.
Qed.

Lemma received_internalRun (bot : Bot (T := T)) (args : RunArgs) (ctx : T) :
  received (internalRun bot args ctx).2 = received (onReceivePhase bot args ctx).2.
Proof.
  rewrite internalRun_unfold.
  destruct (onReceivePhase bot args ctx) as [[[l1|e|] ctx1] tr1] eqn:E1;
    [|reflexivity..].
  destruct (onEnterPhase bot args l1 ctx1) as [[o2 ctx2] tr2] eqn:E2.
  destruct (onEnterPhase_calls _ _ _ _ _ _ _ E2) as (Hr2 & _ & _).
  assert (Htr : received (tr1 ++ tr2) = received tr1).
  { unfold received in *. by rewrite omap_app, Hr2, app_nil_r. }
  destruct o2; exact Htr.
Qed.

(** C7 (as amended): [internalRun] invokes the current node's [onReceive]
    if and only if a non-empty [message] was supplied and the current node
    has an [onReceive] handler. It is then the first call of the execution,
    made once, with that message, on the context of the call and on
    closures over an empty [messages] and an unset [next]; the rest of the
    execution, with the lookup of the final node, starts from the locals
    the handler leaves when it returns. *)
Theorem onReceive_invoked_iff (bot : Bot (T := T)) (args : RunArgs) (ctx : T) :
  let c := currentNodeId bot args in
  let tr := (internalRun bot args ctx).2 in
  (forall id m, (id, m) ∈ received tr <->
     id = c /\ message args = Some m /\ m <> "" /\
     is_Some (stateManager bot !! c ≫= onReceive)) /\
  length (received tr) <= 1 /\
  (forall m h, message args = Some m -> m <> "" ->
     stateManager bot !! c ≫= onReceive = Some h ->
     onReceivePhase bot args ctx =
       (let '(o, ctx', tr1) := invoke c (h m) fresh ctx in
        (o, ctx', OnReceiveCalled c m :: tr1)) /\
     forall l1 ctx1 tr1,
       invoke c (h m) fresh ctx = (Resolved l1, ctx1, tr1) ->
       exists tr2,
         tr = OnReceiveCalled c m :: tr1 ++ tr2 /\
         (onEnterPhase bot args l1 ctx1).2 = tr2).
Proof.
  intros c tr. subst tr. rewrite received_internalRun.
  destruct (onReceivePhase bot args ctx) as [[o1 ctx1] tr1] eqn:E1.
  destruct (onReceivePhase_calls _ _ _ _ _ _ E1) as (_ & Hr & _).
  fold c in Hr. simpl. rewrite Hr. clear Hr.
  split; [|split].
  - intros id m.
    destruct (message args) as [m'|];
      [destruct (stateManager bot !! c ≫= onReceive) as [h|];
       [destruct (truthy_string m') eqn:Em|]|].
    + rewrite list_elem_of_singleton. unfold truthy_string in Em.
      destruct (String.eqb_spec m' ""); [discriminate|]. split.
      * intros [= -> ->]. eauto.
      * intros (-> & [= ->] & _ & _). reflexivity.
    + unfold truthy_string in Em.
      destruct (String.eqb_spec m' ""); [|discriminate..]. split.
      * intros H; inversion H.
      * intros (_ & [= ->] & Hne & _). congruence.
    + split; [intros H; inversion H|]. intros (_ & _ & _ & [x Hx]). discriminate.
    + split; [intros H; inversion H|]. intros (_ & H & _). discriminate.
  - destruct (message args) as [m'|];
      [destruct (stateManager bot !! c ≫= onReceive) as [h|];
       [destruct (truthy_string m')|]|]; simpl; lia.
  - intros m h Hm Hne Hh.
    assert (Hph : onReceivePhase bot args ctx =
      (let '(o, ctx', tr1) := invoke c (h m) fresh ctx in
       (o, ctx', OnReceiveCalled c m :: tr1))).
    { rewrite onReceivePhase_unfold. fold c. rewrite Hm, Hh.
      unfold truthy_string. destruct (String.eqb_spec m ""); [congruence|].
      reflexivity. }
    split; [rewrite <- E1; exact Hph|].
    intros l1' ctx1' tr1' Ei. rewrite internalRun_unfold, Hph, Ei.
    exists (onEnterPhase bot args l1' ctx1').2.
    destruct (onEnterPhase bot args l1' ctx1') as [[[l2|e|] ctx2] tr2];
      split; reflexivity.
Qed.

(** ** The response *)

(** C6: the [messages] of the response are the arguments of the [send]
    calls of the execution in call order; the calls of the [onReceive]
    phase all come before those of the [onEnter] phase, so the messages
    sent while receiving come before those sent while entering. *)
Theorem messages_in_send_order (bot : Bot (T := T)) (args : RunArgs) (ctx : T)
    r ctx' tr :
  internalRun bot args ctx = (Resolved r, ctx', tr) ->
  messages r = sent tr /\
  exists l1 ctx1 trR trE,
    onReceivePhase bot args ctx = (Resolved l1, ctx1, trR) /\
    (onEnterPhase bot args l1 ctx1).2 = trE /\
    tr = trR ++ trE /\
    entered trR = [] /\ received trE = [] /\
    messages r = sent trR ++ sent trE.
Proof.
  rewrite internalRun_unfold.
  destruct (onReceivePhase bot args ctx) as [[[l1|e|] ctx1] tr1] eqn:E1;
    [|discriminate..].
  destruct (onEnterPhase bot args l1 ctx1) as [[[l2|e|] ctx2] tr2] eqn:E2;
    [|discriminate..].
  intros [= <- <- <-].
  destruct (onReceivePhase_calls _ _ _ _ _ _ E1) as (He1 & _ & Hl1).
  destruct (onEnterPhase_calls _ _ _ _ _ _ _ E2) as (Hr2 & _ & Hl2).
  destruct (Hl1 _ eq_refl) as [Hm1 _]. destruct (Hl2 _ eq_refl) as [Hm2 _].
  assert (Hm : l_messages l2 = sent tr1 ++ sent tr2) by (by rewrite Hm2, Hm1).
  split.
  - simpl. unfold sent in *. by rewrite omap_app.
  - exists l1, ctx1, tr1, tr2. rewrite E2. simpl. by repeat split.
Qed.

Lemma transitions_internalRun (bot : Bot (T := T)) (args : RunArgs) (ctx : T)
    r ctx' tr :
  internalRun bot args ctx = (Resolved r, ctx', tr) ->
  exists l1 ctx1 tr1 l2,
    onReceivePhase bot args ctx = (Resolved l1, ctx1, tr1) /\
    r = response bot args (stateManager bot !! finalNodeId bot args l1) l2 /\
    or_else (l_next l2) (currentNodeId bot args)
      = finalKey (currentNodeId bot args) tr.
Proof.
  rewrite internalRun_unfold.
  destruct (onReceivePhase bot args ctx) as [[[l1|e|] ctx1] tr1] eqn:E1;
    [|discriminate..].
  destruct (onEnterPhase bot args l1 ctx1) as [[[l2|e|] ctx2] tr2] eqn:E2;
    [|discriminate..].
  intros [= <- <- <-]. exists l1, ctx1, tr1, l2.
  split; [reflexivity|]. split; [reflexivity|].
  destruct (onReceivePhase_calls _ _ _ _ _ _ E1) as (_ & _ & Hl1).
  destruct (onEnterPhase_calls _ _ _ _ _ _ _ E2) as (_ & _ & Hl2).
  destruct (Hl1 _ eq_refl) as [_ Hn1]. destruct (Hl2 _ eq_refl) as [_ Hn2].
  unfold finalKey, transitions in *. rewrite omap_app, last_app, Hn2.
  destruct (last (omap _ tr2)) as [t|]; [apply or_else_resolve|].
  rewrite Hn1. destruct (last (omap _ tr1)) as [t|]; simpl;
    [apply or_else_resolve | reflexivity].
Qed.

(** C3: when the final node (the node registered under
    [next || currentNodeId] once the [onReceive] phase is over) is terminal,
    the response has [done = true] and no [next], whatever [transition]
    calls the handlers made; and in every response [done] is [true] exactly
    when [next] is absent. *)
Theorem terminal_response (bot : Bot (T := T)) (args : RunArgs) (ctx : T)
    r ctx' tr :
  internalRun bot args ctx = (Resolved r, ctx', tr) ->
  (done r = Some true <-> next r = None) /\
  (forall l1 ctx1 tr1 h,
     onReceivePhase bot args ctx = (Resolved l1, ctx1, tr1) ->
     stateManager bot !! finalNodeId bot args l1 = Some h ->
     end_ h = Some true ->
     done r = Some true /\ next r = None).
Proof.
  intros E. destruct (transitions_internalRun _ _ _ _ _ _ E)
    as (l1 & ctx1 & tr1 & l2 & E1 & -> & _).
  unfold response; simpl. split.
  - destruct (stateManager bot !! finalNodeId bot args l1 ≫= end_)
      as [[|]|]; simpl; split; intros H; congruence.
  - intros l1' ctx1' tr1' h E1' Hh He. rewrite E1 in E1'.
    injection E1' as <- <- <-. rewrite Hh. simpl. rewrite He. split; reflexivity.
Qed.

(** X13: when the final node is not terminal (unregistered, or registered
    with [end] absent or [false]), [next] is the resolution of the last
    [transition] call of the execution, [onEnter]'s calls included, or the
    current node id when there was none; [done] is that node's [end] flag
    as it was registered, never [true]. *)
Theorem nonterminal_response (bot : Bot (T := T)) (args : RunArgs) (ctx : T)
    r ctx' tr l1 ctx1 tr1 :
  internalRun bot args ctx = (Resolved r, ctx', tr) ->
  onReceivePhase bot args ctx = (Resolved l1, ctx1, tr1) ->
  stateManager bot !! finalNodeId bot args l1 ≫= end_ <> Some true ->
  done r = stateManager bot !! finalNodeId bot args l1 ≫= end_ /\
  done r <> Some true /\
  next r = Some (match last (transitions tr) with
                 | Some t => resolve (currentNodeId bot args) t
                 | None => currentNodeId bot args
                 end).
Proof.
  intros E E1 Hend. destruct (transitions_internalRun _ _ _ _ _ _ E)
    as (l1' & ctx1' & tr1' & l2 & E1' & -> & Hnext).
  rewrite E1 in E1'. injection E1' as <- <- <-.
  unfold response; simpl. split; [reflexivity|]. split; [exact Hend|].
  rewrite Hnext.
  destruct (stateManager bot !! finalNodeId bot args l1 ≫= end_) as [[|]|];
    simpl; [congruence | reflexivity | reflexivity].
Qed.

(** C8: when the current node id has no entry in the registry the call
    resolves, no handler runs, there are no messages and [next] is the
    current node id; when the [onReceive] phase moves to an id with no
    entry, the call resolves as well, no [onEnter] runs, the messages are
    those of the [onReceive] phase and [next] is the resolution of its last
    [transition] call. *)
Theorem unregistered_node (bot : Bot (T := T)) (args : RunArgs) (ctx : T) :
  let c := currentNodeId bot args in
  (stateManager bot !! c = None ->
   internalRun bot args ctx =
     (Resolved {| messages := []; next := Some c; done := None |}, ctx, [])) /\
  (forall l1 ctx1 tr1,
     onReceivePhase bot args ctx = (Resolved l1, ctx1, tr1) ->
     stateManager bot !! finalKey c tr1 = None ->
     internalRun bot args ctx =
       (Resolved {| messages := sent tr1;
                    next := Some (finalKey c tr1);
                    done := None |}, ctx1, tr1)).
Proof.
  intros c.
  assert (Hgen : forall l1 ctx1 tr1,
     onReceivePhase bot args ctx = (Resolved l1, ctx1, tr1) ->
     stateManager bot !! finalKey c tr1 = None ->
     internalRun bot args ctx =
       (Resolved {| messages := sent tr1;
                    next := Some (finalKey c tr1);
                    done := None |}, ctx1, tr1)).
  { intros l1 ctx1 tr1 E1 Hnone.
    destruct (onReceivePhase_final _ _ _ _ _ _ E1) as [Hf _]. fold c in Hf.
    destruct (onReceivePhase_calls _ _ _ _ _ _ E1) as (_ & _ & Hl).
    destruct (Hl _ eq_refl) as [Hm _].
    rewrite internalRun_unfold, E1, onEnterPhase_unfold, Hf, Hnone. simpl.
    destruct (isFirstRun args || truthy (l_next l1)); simpl;
      unfold response; simpl; rewrite app_nil_r, Hm;
      fold (finalNodeId bot args l1); rewrite Hf; reflexivity. }
  split; [|exact Hgen].
  intros Hnone.
  assert (E1 : onReceivePhase bot args ctx = (Resolved fresh, ctx, [])).
  { rewrite onReceivePhase_unfold. fold c. rewrite Hnone. simpl.
    destruct (message args); reflexivity. }
  exact (Hgen _ _ _ E1 Hnone).
Qed.

(** ** Transition resolution in the execution *)

(** C5: a [transition] call with target [t] sets [next] to [t] when [t]
    contains the separator and otherwise to the flow segment of the current
    node id, the separator and [t]; the flow segment is the part of the
    current node id before its first separator. Every [transition] call of
    the execution is such a call: a handler's [transition] step applies the
    closure over the current node id and goes on, [onReceive] and [onEnter]
    are both run against that closure, whatever node the [onReceive] phase
    moved to, and so the locals after either phase, the key of the final
    node and the [next] of the response hold the resolution against the
    current node id. *)
Theorem transition_resolution (bot : Bot (T := T)) (args : RunArgs) :
  let c := currentNodeId bot args in
  let resolved t :=
    if includes dot t then t else before_first dot c +:+ "." +:+ t in
  (forall t l,
     l_messages (transition c t l) = l_messages l /\
     l_next (transition c t l) = Some (resolved t)) /\
  (includes dot (before_first dot c) = false /\
   exists rest, c = before_first dot c +:+ rest /\
     (includes dot c = true -> exists rest', rest = String dot rest')) /\
  (forall (h : Handler) m l (ctx : T),
     invoke c (Transition m h) l ctx =
       (let '(o, ctx', tr) := invoke c h (transition c m l) ctx in
        (o, ctx', TransitionCalled m :: tr))) /\
  (forall ctx m h,
     message args = Some m -> m <> "" ->
     stateManager bot !! c ≫= onReceive = Some h ->
     onReceivePhase bot args ctx =
       (let '(o, ctx', tr) := invoke c (h m) fresh ctx in
        (o, ctx', OnReceiveCalled c m :: tr))) /\
  (forall l1 ctx1 h,
     isFirstRun args || truthy (l_next l1) = true ->
     stateManager bot !! finalNodeId bot args l1 ≫= onEnter = Some h ->
     onEnterPhase bot args l1 ctx1 =
       (let '(o, ctx', tr) := invoke c h l1 ctx1 in
        (o, ctx', OnEnterCalled (finalNodeId bot args l1) :: tr))) /\
  (forall ctx l1 ctx1 tr1 t,
     onReceivePhase bot args ctx = (Resolved l1, ctx1, tr1) ->
     last (transitions tr1) = Some t ->
     l_next l1 = Some (resolved t) /\ finalNodeId bot args l1 = resolved t) /\
  (forall l1 ctx1 l2 ctx2 tr2 t,
     onEnterPhase bot args l1 ctx1 = (Resolved l2, ctx2, tr2) ->
     last (transitions tr2) = Some t ->
     l_next l2 = Some (resolved t)) /\
  (forall ctx r ctx' tr t,
     internalRun bot args ctx = (Resolved r, ctx', tr) ->
     last (transitions tr) = Some t ->
     next r = if truthy_flag (done r) then None else Some (resolved t)).
Proof.
  intros c resolved.
  assert (Hres : forall t, resolved t = resolve c t) by reflexivity.
  split; [|split; [|split; [|split; [|split; [|split; [|split]]]]]].
  - intros t l. rewrite transition_resolve. split; reflexivity.
  - split; [apply before_first_no_dot | apply before_first_prefix].
  - intros h m l ctx. simpl. run_M.
    destruct (invoke c h (transition c m l) ctx) as [[[l'|e|] c1] t1];
      reflexivity.
  - intros ctx m h Hm Hne Hh. rewrite onReceivePhase_unfold. fold c.
    rewrite Hm, Hh. unfold truthy_string.
    destruct (String.eqb_spec m ""); [congruence | reflexivity].
  - intros l1 ctx1 h Hgo Hh. rewrite onEnterPhase_unfold, Hgo, Hh. reflexivity.
  - intros ctx l1 ctx1 tr1 t E Hlast.
    destruct (onReceivePhase_calls _ _ _ _ _ _ E) as (_ & _ & Hl).
    destruct (Hl _ eq_refl) as [_ Hn]. unfold finalNodeId.
    rewrite Hn, Hlast. simpl. fold c.
    split; [reflexivity|].
    rewrite (includes_truthy _ (resolve_includes c t)). reflexivity.
  - intros l1 ctx1 l2 ctx2 tr2 t E Hlast.
    destruct (onEnterPhase_calls _ _ _ _ _ _ _ E) as (_ & _ & Hl).
    destruct (Hl _ eq_refl) as [_ Hn]. rewrite Hn, Hlast. reflexivity.
  - intros ctx r ctx' tr t E Hlast.
    destruct (transitions_internalRun _ _ _ _ _ _ E)
      as (l1 & ctx1 & tr1 & l2 & _ & -> & Hk).
    unfold response; simpl. rewrite Hk. unfold finalKey. rewrite Hlast.
    reflexivity.
Qed.

(** ** Empty strings at the boundary of [run] *)

Lemma onReceivePhase_empty_message (bot : Bot (T := T)) (n : option string) :
  onReceivePhase bot (mkArgs n (Some "")) = onReceivePhase bot (mkArgs n None).
Proof.
  unfold onReceivePhase; simpl.
  destruct (stateManager bot !! currentNodeId bot (mkArgs n (Some "")) ≫= onReceive);
    reflexivity.
Qed.

Lemma internalRun_empty_message (bot : Bot (T := T)) (n : option string) :
  internalRun bot (mkArgs n (Some "")) = internalRun bot (mkArgs n None).
Proof.
  unfold internalRun. rewrite onReceivePhase_empty_message. reflexivity.
Qed.

Lemma internalRun_runs_onEnter (bot : Bot (T := T)) (args : RunArgs) (ctx : T)
    l1 ctx1 tr1 h :
  let c := currentNodeId bot args in
  onReceivePhase bot args ctx = (Resolved l1, ctx1, tr1) ->
  stateManager bot !! finalKey c tr1 ≫= onEnter = Some h ->
  isFirstRun args || negb (bool_decide (transitions tr1 = [])) = true ->
  internalRun bot args ctx =
    (let '(o2, ctx2, tr2) := invoke c h l1 ctx1 in
     (match o2 with
      | Resolved l2 =>
          Resolved (response bot args (stateManager bot !! finalKey c tr1) l2)
      | Rejected e => Rejected e
      | Pending => Pending
      end, ctx2, tr1 ++ OnEnterCalled (finalKey c tr1) :: tr2)).
Proof.
  intros c E1 Hh Hgo. rewrite internalRun_unfold, E1.
  destruct (onReceivePhase_final _ _ _ _ _ _ E1) as [Hf Ht]. fold c in Hf.
  rewrite onEnterPhase_unfold, Hf, Ht, Hh, Hgo. fold c.
  destruct (invoke c h l1 ctx1) as [[[l2|e|] ctx2] tr2]; reflexivity.
Qed.

Lemma run_chain (bot : Bot (T := T)) (args : RunArgs) :
  run bot args = chain (default [] (plugins (config bot))) (internalRun bot args).
Proof.
  unfold run, chain.
  rewrite <- (rev_involutive (default [] (plugins (config bot)))) at 2.
  symmetry. apply fold_left_rev_right.
Qed.

(** C10 (as amended): [run] with [node] the empty string is [run] without
    [node]: the call counts as a first run, the current node is the default
    start node, and the final node's [onEnter] is run when present, which
    is the default start node's own when there is no message; [run] with
    [message] the empty string is [run] without [message], and the
    [onReceive] phase does nothing. In both cases [run] is the plugin chain
    around that engine call. *)
Theorem empty_strings_absent (bot : Bot (T := T)) (n m : option string) :
  run bot (mkArgs (Some "") m) = run bot (mkArgs None m) /\
  isFirstRun (mkArgs (Some "") m) = true /\
  currentNodeId bot (mkArgs (Some "") m) = defaultStartNode (config bot) /\
  (forall ctx,
     entered (internalRun bot (mkArgs (Some "") None) ctx).2 =
       if present (stateManager bot !! defaultStartNode (config bot) ≫= onEnter)
       then [defaultStartNode (config bot)] else []) /\
  run bot (mkArgs n (Some "")) = run bot (mkArgs n None) /\
  (forall ctx, received (internalRun bot (mkArgs n (Some "")) ctx).2 = []) /\
  (run bot (mkArgs (Some "") m)
     = chain (default [] (plugins (config bot)))
         (internalRun bot (mkArgs None m)) /\
   run bot (mkArgs n (Some ""))
     = chain (default [] (plugins (config bot)))
         (internalRun bot (mkArgs n None))) /\
  (forall ctx l1 ctx1 tr1 h,
     let d := defaultStartNode (config bot) in
     onReceivePhase bot (mkArgs None m) ctx = (Resolved l1, ctx1, tr1) ->
     stateManager bot !! finalKey d tr1 ≫= onEnter = Some h ->
     internalRun bot (mkArgs (Some "") m) ctx =
       (let '(o2, ctx2, tr2) := invoke d h l1 ctx1 in
        (match o2 with
         | Resolved l2 =>
             Resolved (response bot (mkArgs None m)
                         (stateManager bot !! finalKey d tr1) l2)
         | Rejected e => Rejected e
         | Pending => Pending
         end, ctx2, tr1 ++ OnEnterCalled (finalKey d tr1) :: tr2))) /\
  (forall ctx h,
     let d := defaultStartNode (config bot) in
     truthy m = false ->
     stateManager bot !! d ≫= onEnter = Some h ->
     internalRun bot (mkArgs (Some "") m) ctx =
       (let '(o2, ctx2, tr2) := invoke d h fresh ctx in
        (match o2 with
         | Resolved l2 =>
             Resolved (response bot (mkArgs None m) (stateManager bot !! d) l2)
         | Rejected e => Rejected e
         | Pending => Pending
         end, ctx2, OnEnterCalled d :: tr2))) /\
  (forall ctx,
     onReceivePhase bot (mkArgs n (Some "")) ctx = (Resolved fresh, ctx, [])).
Proof.
  split; [reflexivity|]. split; [reflexivity|]. split; [reflexivity|].
  split; [|split; [|split; [|split; [|split; [|split]]]]].
  - intros ctx. rewrite entered_internalRun.
    rewrite onReceivePhase_no_message by reflexivity. reflexivity.
  - unfold run. rewrite internalRun_empty_message. reflexivity.
  - intros ctx. rewrite received_internalRun, onReceivePhase_empty_message.
    rewrite onReceivePhase_no_message by reflexivity. reflexivity.
  - split.
    + exact (run_chain bot (mkArgs None m)).
    + rewrite <- internalRun_empty_message. apply run_chain.
  - intros ctx l1 ctx1 tr1 h d E1 Hh.
    exact (internalRun_runs_onEnter bot (mkArgs None m) ctx l1 ctx1 tr1 h
             E1 Hh eq_refl).
  - intros ctx h d Hm Hh.
    exact (internalRun_runs_onEnter bot (mkArgs None m) ctx fresh ctx [] h
             (onReceivePhase_no_message bot (mkArgs None m) ctx Hm) Hh eq_refl).
  - intros ctx. rewrite onReceivePhase_empty_message.
    apply onReceivePhase_no_message. reflexivity.
Qed.

(** ** The plugin chain *)

Lemma chain_app (pre post : list (BotPlugin (T := T))) base :
  chain (pre ++ post) base = chain pre (chain post base).
Proof. unfold chain. apply foldr_app. Qed.

Lemma chain_no_intercept (pre : list (BotPlugin (T := T))) base :
  Forall (fun q => intercept q = None) pre -> chain pre base = base.
Proof.
  induction 1 as [|q pre Hq _ IH]; [reflexivity|].
  simpl. rewrite Hq. exact IH.
Qed.

Lemma chain_within (S : T -> Prop) (pre : list (BotPlugin (T := T)))
    (n1 n2 : M FlowResponse) :
  Forall (stays_within S) pre ->
  (forall c, S c -> n1 c = n2 c) ->
  forall c, S c -> chain pre n1 c = chain pre n2 c.
Proof.
  intros Hpre Hn. induction Hpre as [|q pre Hq _ IH]; [exact Hn|].
  simpl. unfold stays_within in Hq.
  destruct (intercept q) as [g|]; [apply Hq, IH | exact IH].
Qed.

Lemma twilioPlugin_stays_within (S : T -> Prop) (twiml : Twiml) :
  stays_within S (twilioPlugin (T := T) twiml).
Proof.
  unfold stays_within; simpl. intros n1 n2 Hn c Hc. run_M.
  destruct (new_MessagingResponse twiml); [|reflexivity..].
  by rewrite (Hn c Hc).
Qed.

(** C2 (as amended): [run] nests the plugins that have an [intercept] in
    declaration order, the first outermost and the last innermost around
    [internalRun]. When a plugin answers without calling its [next], the
    engine and the plugins declared after it play no part in the result:
    what the plugin declared before it receives from its [next] is that
    answer, at every context where the plugin answers so; [run] resolves
    with it when no plugin declared before it has an [intercept], and
    otherwise with what those plugins make of it. *)
Theorem run_plugin_chain (bot : Bot (T := T)) (args : RunArgs) :
  let ps := default [] (plugins (config bot)) in
  run bot args = chain ps (internalRun bot args) /\
  (forall pre p f post,
     ps = pre ++ p :: post -> intercept p = Some f ->
     (forall n n', f n = f n') ->
     forall post' base, run bot args = chain (pre ++ p :: post') base) /\
  (forall pre p f post ctx,
     ps = pre ++ p :: post ->
     Forall (fun q => intercept q = None) pre -> intercept p = Some f ->
     (forall n n', f n ctx = f n' ctx) ->
     forall base, run bot args ctx = f base ctx) /\
  (forall pre p f post,
     ps = pre ++ p :: post -> intercept p = Some f ->
     run bot args = chain pre (chain (p :: post) (internalRun bot args)) /\
     forall ctx, (forall n n', f n ctx = f n' ctx) ->
       forall n, chain (p :: post) (internalRun bot args) ctx = f n ctx) /\
  (forall (S : T -> Prop) pre p f post,
     ps = pre ++ p :: post -> intercept p = Some f ->
     Forall (stays_within S) pre ->
     (forall c, S c -> forall n n', f n c = f n' c) ->
     forall c, S c ->
     forall post' base, run bot args c = chain (pre ++ p :: post') base c).
Proof.
  intros ps. split; [apply run_chain|]. split; [|split; [|split]].
  - intros pre p f post Hps Hf Hconst post' base.
    rewrite run_chain. fold ps. rewrite Hps, !chain_app. simpl. rewrite Hf.
    f_equal. apply Hconst.
  - intros pre p f post ctx Hps Hpre Hf Hconst base.
    rewrite run_chain. fold ps. rewrite Hps, chain_app.
    rewrite (chain_no_intercept _ _ Hpre). simpl. rewrite Hf. apply Hconst.
  - intros pre p f post Hps Hf. split.
    + rewrite run_chain. fold ps. by rewrite Hps, chain_app.
    + intros ctx Hconst n. simpl. rewrite Hf. apply Hconst.
  - intros S pre p f post Hps Hf Hpre Hconst c Hc post' base.
    rewrite run_chain. fold ps. rewrite Hps, !chain_app.
    apply (chain_within S pre _ _ Hpre); [|exact Hc].
    intros c' Hc'. simpl. rewrite Hf. by apply Hconst.
Qed.

(** ** More on the registry *)

Lemma before_first_append (f i : string) :
  before_first dot (f +:+ "." +:+ i) = before_first dot f.
Proof.
  induction f as [|a f IH]; [reflexivity|].
  change (before_first dot (String a (f +:+ "." +:+ i))
          = before_first dot (String a f)).
  simpl. destruct (Ascii.eqb a dot); [reflexivity|]. by rewrite IH.
Qed.

Lemma before_first_dot_free (f : string) :
  includes dot f = false -> before_first dot f = f.
Proof.
  induction f as [|a f IH]; simpl; [reflexivity|].
  destruct (Ascii.eqb a dot); simpl; [discriminate|].
  intros H. by rewrite IH.
Qed.

Lemma append_cancel_l (f x y : string) : f +:+ x = f +:+ y -> x = y.
Proof.
  induction f as [|a f IH]; [exact id|].
  change (String a (f +:+ x) = String a (f +:+ y) -> x = y).
  intros [= H]. exact (IH H).
Qed.

Lemma key_injective (f1 i1 f2 i2 : string) :
  includes dot f1 = false -> includes dot f2 = false ->
  f1 +:+ "." +:+ i1 = f2 +:+ "." +:+ i2 -> f1 = f2 /\ i1 = i2.
Proof.
  intros H1 H2 E.
  assert (Hf : f1 = f2).
  { rewrite <- (before_first_dot_free _ H1), <- (before_first_dot_free _ H2).
    rewrite <- (before_first_append f1 i1), <- (before_first_append f2 i2).
    by rewrite E. }
  subst f2. split; [reflexivity|].
  apply append_cancel_l in E. by injection E.
Qed.

Lemma append_assoc (a b c : string) : (a +:+ b) +:+ c = a +:+ (b +:+ c).
Proof.
  induction a as [|x a IH]; [reflexivity|].
  change (String x ((a +:+ b) +:+ c) = String x (a +:+ (b +:+ c))).
  by rewrite IH.
Qed.

(** The registry after the [flow.node] calls of a builder. *)
Lemma builder_lookup_other name (b : list (string * NodeHandlers (T := T)))
    (sm : gmap string NodeHandlers) k :
  (forall id h, (id, h) ∈ b -> name +:+ "." +:+ id <> k) ->
  fold_left (fun sm call => Flow_node name call.1 call.2 sm) b sm !! k = sm !! k.
Proof.
  revert sm. induction b as [|[id h] b IH]; intros sm Hb; simpl; [reflexivity|].
  rewrite IH.
  - unfold Flow_node. apply lookup_insert_ne. apply (Hb id h). left.
  - intros id' h' Hin. apply (Hb id' h'). by right.
Qed.

Lemma builder_lookup_last name (b1 b2 : list (string * NodeHandlers (T := T)))
    id h (sm : gmap string NodeHandlers) :
  (forall id' h', (id', h') ∈ b2 ->
     name +:+ "." +:+ id' <> name +:+ "." +:+ id) ->
  fold_left (fun sm call => Flow_node name call.1 call.2 sm)
            (b1 ++ (id, h) :: b2) sm !! (name +:+ "." +:+ id) = Some h.
Proof.
  intros Hb2. rewrite fold_left_app. simpl.
  rewrite builder_lookup_other by exact Hb2.
  unfold Flow_node. apply lookup_insert_eq.
Qed.

Lemma builder_cases name (b : list (string * NodeHandlers (T := T))) k :
  (forall id h, (id, h) ∈ b -> name +:+ "." +:+ id <> k) \/
  (exists b1 id h b2, b = b1 ++ (id, h) :: b2 /\ name +:+ "." +:+ id = k /\
     forall id' h', (id', h') ∈ b2 -> name +:+ "." +:+ id' <> k).
Proof.
  induction b as [|[id h] b IH].
  - left. intros id h Hin. inversion Hin.
  - destruct IH as [Hnone|(b1 & id' & h' & b2 & -> & Hk & Hb2)].
    + destruct (decide (name +:+ "." +:+ id = k)) as [Hk|Hk].
      * right. exists [], id, h, b. by repeat split.
      * left. intros id' h' Hin. apply elem_of_cons in Hin as [[= -> ->]|Hin];
          [exact Hk | by apply (Hnone id' h')].
    + right. exists ((id, h) :: b1), id', h', b2. by repeat split.
Qed.

(** X1: [bot.flow(name, builder)] keeps the configuration; a key that no
    [flow.node] call of the builder produces keeps its entry; and a key
    that the builder produces holds the handlers of the last call that
    produced it. *)
Theorem Bot_flow_lookup (name : string)
    (builder : list (string * NodeHandlers (T := T))) (bot : Bot) :
  config (Bot_flow name builder bot) = config bot /\
  (forall k,
     (forall id h, (id, h) ∈ builder -> name +:+ "." +:+ id <> k) ->
     stateManager (Bot_flow name builder bot) !! k = stateManager bot !! k) /\
  (forall b1 id h b2,
     builder = b1 ++ (id, h) :: b2 ->
     (forall id' h', (id', h') ∈ b2 ->
        name +:+ "." +:+ id' <> name +:+ "." +:+ id) ->
     stateManager (Bot_flow name builder bot) !! (name +:+ "." +:+ id) = Some h).
Proof.
  split; [reflexivity|]. split.
  - intros k Hk. apply builder_lookup_other, Hk.
  - intros b1 id h b2 -> Hb2. apply builder_lookup_last, Hb2.
Qed.

(** X2: when flow names contain no separator, the key determines the flow
    name and the local id, so nodes of different flows never share an
    entry; a flow name that contains the separator can collide: flow [f.i]
    with node [j] and flow [f] with node [i.j] are stored under one key,
    the later registration replacing the earlier. *)
Theorem Flow_node_keys (f1 i1 f2 i2 : string) (h1 h2 : NodeHandlers (T := T))
    (sm : gmap string NodeHandlers) :
  (includes dot f1 = false -> includes dot f2 = false ->
   f1 +:+ "." +:+ i1 = f2 +:+ "." +:+ i2 -> f1 = f2 /\ i1 = i2) /\
  (includes dot f1 = false -> includes dot f2 = false -> f1 <> f2 ->
   Flow_node f2 i2 h2 (Flow_node f1 i1 h1 sm) !! (f1 +:+ "." +:+ i1) = Some h1) /\
  Flow_node f1 (i1 +:+ "." +:+ i2) h2
    (Flow_node (f1 +:+ "." +:+ i1) i2 h1 sm)
  = Flow_node f1 (i1 +:+ "." +:+ i2) h2 sm.
Proof.
  split; [apply key_injective|]. split.
  - intros H1 H2 Hne. unfold Flow_node.
    rewrite lookup_insert_ne; [apply lookup_insert_eq|].
    intros E. destruct (key_injective _ _ _ _ H2 H1 E). congruence.
  - unfold Flow_node.
    replace ((f1 +:+ "." +:+ i1) +:+ "." +:+ i2)
      with (f1 +:+ "." +:+ i1 +:+ "." +:+ i2).
    + apply insert_insert_eq.
    + symmetry. by rewrite (append_assoc f1 ("." +:+ i1) ("." +:+ i2)).
Qed.

(** X3: two [bot.flow] calls with the same name amount to one call whose
    builder makes the calls of the first and then those of the second: a
    flow can be defined in pieces, and the second piece does not reset the
    first. *)
Theorem Bot_flow_in_pieces (name : string)
    (b1 b2 : list (string * NodeHandlers (T := T))) (bot : Bot) :
  Bot_flow name b2 (Bot_flow name b1 bot) = Bot_flow name (b1 ++ b2) bot /\
  (forall id h, (id, h) ∈ b1 ->
     (forall id' h', (id', h') ∈ b2 ->
        name +:+ "." +:+ id' <> name +:+ "." +:+ id) ->
     is_Some (stateManager (Bot_flow name b2 (Bot_flow name b1 bot))
                !! (name +:+ "." +:+ id))).
Proof.
  assert (Heq : Bot_flow name b2 (Bot_flow name b1 bot)
                = Bot_flow name (b1 ++ b2) bot).
  { unfold Bot_flow; simpl. by rewrite fold_left_app. }
  split; [exact Heq|].
  intros id h Hin Hb2. simpl. rewrite builder_lookup_other by exact Hb2.
  destruct (builder_cases name b1 (name +:+ "." +:+ id))
    as [Hnone|(c1 & id' & h' & c2 & -> & Hk & Hc2)].
  - exfalso. exact (Hnone id h Hin eq_refl).
  - exists h'. rewrite <- Hk. apply builder_lookup_last.
    intros id2 h2 Hin2. rewrite Hk. by apply (Hc2 id2 h2).
Qed.

(** X4: flows whose names differ and contain no separator can be defined
    in either order: the registry is the same. *)
Theorem Bot_flow_commute (name1 name2 : string)
    (b1 b2 : list (string * NodeHandlers (T := T))) (bot : Bot) :
  includes dot name1 = false -> includes dot name2 = false ->
  name1 <> name2 ->
  Bot_flow name2 b2 (Bot_flow name1 b1 bot)
  = Bot_flow name1 b1 (Bot_flow name2 b2 bot).
Proof.
  intros H1 H2 Hne. unfold Bot_flow. simpl. f_equal. apply map_eq. intros k.
  destruct (builder_cases name1 b1 k)
    as [Hn1|(c1 & id1 & h1 & c2 & -> & <- & Hc2)].
  - rewrite (builder_lookup_other name1 b1 _ k Hn1).
    destruct (builder_cases name2 b2 k)
      as [Hn2|(d1 & id2 & h2 & d2 & -> & <- & Hd2)].
    + rewrite !(builder_lookup_other name2 b2 _ k Hn2).
      by rewrite (builder_lookup_other name1 b1 _ k Hn1).
    + by rewrite !builder_lookup_last.
  - assert (Hn2 : forall id h, (id, h) ∈ b2 ->
              name2 +:+ "." +:+ id <> name1 +:+ "." +:+ id1).
    { intros id h _ E. destruct (key_injective _ _ _ _ H2 H1 E). congruence. }
    rewrite (builder_lookup_other name2 b2 _ _ Hn2).
    by rewrite !builder_lookup_last.
Qed.

(** X5: from a node of a flow whose name contains no separator, a bare
    [transition] target is looked up in the same flow, so it finds the node
    that [flow.node] registered there under that local id; when the flow
    name contains the separator, only its part before the first separator
    is used, so the sibling is missed. *)
Theorem transition_to_sibling (f i t : string) (l : Locals)
    (h : NodeHandlers (T := T)) (sm : gmap string NodeHandlers) :
  includes dot t = false ->
  l_next (transition (f +:+ "." +:+ i) t l)
    = Some (before_first dot f +:+ "." +:+ t) /\
  (includes dot f = false ->
   forall k, l_next (transition (f +:+ "." +:+ i) t l) = Some k ->
     Flow_node f t h sm !! k = Some h) /\
  (includes dot f = true ->
   l_next (transition (f +:+ "." +:+ i) t l) <> Some (f +:+ "." +:+ t)).
Proof.
  intros Ht.
  assert (E : l_next (transition (f +:+ "." +:+ i) t l)
              = Some (before_first dot f +:+ "." +:+ t)).
  { rewrite transition_resolve. simpl. unfold resolve.
    by rewrite Ht, before_first_append. }
  split; [exact E|]. split.
  - intros Hf k. rewrite E, (before_first_dot_free _ Hf). intros [= <-].
    unfold Flow_node. apply lookup_insert_eq.
  - intros Hf. rewrite E. intros [= Heq].
    assert (Hb : includes dot (before_first dot f) = false)
      by apply before_first_no_dot.
    assert (Hfb : before_first dot (f +:+ "." +:+ t) = before_first dot f)
      by apply before_first_append.
    rewrite <- Heq, before_first_append in Hfb.
    rewrite (before_first_dot_free _ Hb) in Hfb.
    assert (Hlen : String.length (before_first dot f +:+ "." +:+ t)
                   = String.length (f +:+ "." +:+ t)) by (by rewrite Heq).
    assert (Hl : forall a b, String.length (a +:+ b)
                   = String.length a + String.length b).
    { intros a b. induction a as [|x a IH]; [reflexivity|].
      change (S (String.length (a +:+ b)) = S (String.length a + String.length b)).
      by rewrite IH. }
    rewrite !Hl in Hlen.
    assert (Hbf : before_first dot f = f).
    { destruct (before_first_prefix f) as (rest & Hr & _).
      assert (Hrl : String.length f
                    = String.length (before_first dot f) + String.length rest)
        by (rewrite Hr at 1; apply Hl).
      destruct rest as [|x rest]; simpl in Hrl; [|lia].
      rewrite Hr at 2. clear. induction (before_first dot f) as [|a s IH];
        [reflexivity|].
      change (String a s = String a (s +:+ "")). by rewrite <- IH. }
    rewrite <- Hbf, Hb in Hf. discriminate.
Qed.

(** ** More on the engine *)

Lemma chain_filter (ps : list (BotPlugin (T := T))) base :
  chain (List.filter (fun p => present (intercept p)) ps) base = chain ps base.
Proof.
  induction ps as [|p ps IH]; [reflexivity|]. simpl.
  destruct (intercept p) as [f|] eqn:Ef; simpl; [rewrite Ef|]; by rewrite IH.
Qed.

(** X6: a plugin without [intercept] is a no-op: [run] is the same with
    such plugins removed from the list, and with no plugin list, an empty
    one or one where no plugin has an [intercept], [run] is [internalRun]. *)
Theorem run_ignores_plugins_without_intercept (bot : Bot (T := T))
    (ps : list BotPlugin) (args : RunArgs) :
  run (withPlugins (Some ps) bot) args
    = run (withPlugins
             (Some (List.filter (fun p => present (intercept p)) ps)) bot) args /\
  run (withPlugins None bot) args = internalRun bot args /\
  (Forall (fun p => intercept p = None) ps ->
   run (withPlugins (Some ps) bot) args = internalRun bot args).
Proof.
  split; [|split].
  - rewrite !run_chain. simpl. by rewrite chain_filter.
  - reflexivity.
  - intros Hps. rewrite run_chain. simpl.
    by rewrite (chain_no_intercept _ _ Hps).
Qed.



Lemma invoke_never_throws (c : string) (h : Handler (T := T)) :
  never_throws h ->
  forall l ctx e, (invoke c h l ctx).1.1 <> Rejected e.
Proof.
  induction h as [|e| |m k IH|n k IH|k IH|x k IH]; simpl; intros Hs l ctx e';
    try discriminate.
  - contradiction.
  - specialize (IH Hs (send m l) ctx e'). run_M.
    destruct (invoke c k (send m l) ctx) as [[o c1] t1]. exact IH.
  - specialize (IH Hs (transition c n l) ctx e'). run_M.
    destruct (invoke c k (transition c n l) ctx) as [[o c1] t1]. exact IH.
  - specialize (IH ctx (Hs ctx) l ctx e'). run_M.
    destruct (invoke c (k ctx) l ctx) as [[o c1] t1]. exact IH.
  - specialize (IH Hs l x e'). run_M.
    destruct (invoke c k l x) as [[o c1] t1]. exact IH.
Qed.

Lemma invoke_always_settles (c : string) (h : Handler (T := T)) :
  always_settles h ->
  forall l ctx, (invoke c h l ctx).1.1 <> Pending.
Proof.
  induction h as [|e| |m k IH|n k IH|k IH|x k IH]; simpl; intros Hs l ctx;
    try discriminate.
  - contradiction.
  - specialize (IH Hs (send m l) ctx). run_M.
    destruct (invoke c k (send m l) ctx) as [[o c1] t1]. exact IH.
  - specialize (IH Hs (transition c n l) ctx). run_M.
    destruct (invoke c k (transition c n l) ctx) as [[o c1] t1]. exact IH.
  - specialize (IH ctx (Hs ctx) l ctx). run_M.
    destruct (invoke c (k ctx) l ctx) as [[o c1] t1]. exact IH.
  - specialize (IH Hs l x). run_M.
    destruct (invoke c k l x) as [[o c1] t1]. exact IH.
Qed.

Lemma lookup_handlers (P : Handler (T := T) -> Prop)
    (sm : gmap string NodeHandlers) k :
  all_handlers P sm ->
  (forall h, sm !! k ≫= onEnter = Some h -> P h) /\
  (forall h m, sm !! k ≫= onReceive = Some h -> P (h m)).
Proof.
  intros Hall. destruct (sm !! k) as [n|] eqn:En; simpl.
  - exact (Hall k n En).
  - split; intros; discriminate.
Qed.

(** Outcomes that the handlers of [internalRun] cannot have, it has not. *)
Lemma internalRun_outcome (bot : Bot (T := T)) (P : Handler (T := T) -> Prop)
    (bad : forall A, Outcome A -> Prop) :
  (forall A a, ~ bad A (Resolved a)) ->
  (forall A B (o : Outcome A), bad A o ->
     forall o' : Outcome B,
       match o, o' with
       | Rejected e, Rejected e' => e = e'
       | Pending, Pending => True
       | _, _ => False
       end -> bad B o') ->
  (forall c h l ctx, P h -> ~ bad Locals (invoke c h l ctx).1.1) ->
  all_handlers P (stateManager bot) ->
  forall args ctx, ~ bad FlowResponse (internalRun bot args ctx).1.1.
Proof.
  intros Hok Hmove Hinv Hall args ctx. rewrite internalRun_unfold.
  assert (E1 : ~ bad Locals (onReceivePhase bot args ctx).1.1).
  { rewrite onReceivePhase_unfold.
    destruct (message args) as [m|]; [|apply Hok].
    destruct (stateManager bot !! currentNodeId bot args ≫= onReceive)
      as [h|] eqn:Eh; [|apply Hok].
    destruct (truthy_string m); [|apply Hok].
    destruct (lookup_handlers _ _ (currentNodeId bot args) Hall) as [_ Hr].
    pose proof (Hinv (currentNodeId bot args) (h m) fresh ctx (Hr h m Eh)) as E.
    destruct (invoke _ _ _ _) as [[o c1] t1]. exact E. }
  destruct (onReceivePhase bot args ctx) as [[[l1|e|] ctx1] tr1]; simpl in E1.
  - assert (E2 : ~ bad Locals (onEnterPhase bot args l1 ctx1).1.1).
    { rewrite onEnterPhase_unfold.
      destruct (isFirstRun args || truthy (l_next l1)); [|apply Hok].
      destruct (stateManager bot !! finalNodeId bot args l1 ≫= onEnter)
        as [h|] eqn:Eh; [|apply Hok].
      destruct (lookup_handlers _ _ (finalNodeId bot args l1) Hall) as [He _].
      pose proof (Hinv (currentNodeId bot args) h l1 ctx1 (He h Eh)) as E.
      destruct (invoke _ _ _ _) as [[o c1] t1]. exact E. }
    destruct (onEnterPhase bot args l1 ctx1) as [[[l2|e|] ctx2] tr2];
      simpl in E2 |- *.
    + apply Hok.
    + intros Hb. apply E2. exact (Hmove _ _ _ Hb (Rejected e) eq_refl).
    + intros Hb. apply E2. exact (Hmove _ _ _ Hb Pending I).
  - intros Hb. apply E1. exact (Hmove _ _ _ Hb (Rejected e) eq_refl).
  - intros Hb. apply E1. exact (Hmove _ _ _ Hb Pending I).
Qed.

(** X8: the engine never rejects of its own: when no registered handler
    can throw, [internalRun] does not reject on any call; and when moreover
    every registered handler settles, [internalRun] resolves on every
    call. *)
Theorem internalRun_resolves (bot : Bot (T := T)) :
  all_handlers never_throws (stateManager bot) ->
  (forall args ctx e, (internalRun bot args ctx).1.1 <> Rejected e) /\
  (all_handlers always_settles (stateManager bot) ->
   forall args ctx, exists r ctx' tr,
     internalRun bot args ctx = (Resolved r, ctx', tr)).
Proof.
  intros Hthrow.
  assert (Hrej : forall args ctx e, (internalRun bot args ctx).1.1 <> Rejected e).
  { intros args ctx e He.
    apply (internalRun_outcome bot never_throws
             (fun A o => exists e, o = Rejected e)) with (args := args) (ctx := ctx).
    - intros A a [e' He']. discriminate.
    - intros A B o [e' ->] o'. destruct o' as [b|e''|]; try contradiction.
      intros _. by exists e''.
    - intros c h l ctx0 Hh [e' He']. exact (invoke_never_throws c h Hh l ctx0 e' He').
    - exact Hthrow.
    - by exists e. }
  split; [exact Hrej|].
  intros Hsettle args ctx.
  assert (Hpen : (internalRun bot args ctx).1.1 <> Pending).
  { apply (internalRun_outcome bot always_settles (fun A o => o = Pending)).
    - intros A a. discriminate.
    - intros A B o -> o'. destruct o' as [b|e''|]; try contradiction. reflexivity.
    - intros c h l ctx0 Hh. exact (invoke_always_settles c h Hh l ctx0).
    - exact Hsettle. }
  specialize (Hrej args ctx).
  destruct (internalRun bot args ctx) as [[[r|e|] ctx'] tr]; simpl in *.
  - by eexists _, _, _.
  - exfalso. by apply (Hrej e).
  - contradiction.
Qed.

Lemma invoke_never_writes (c : string) (h : Handler (T := T)) :
  never_writes h -> forall l ctx, (invoke c h l ctx).1.2 = ctx.
Proof.
  induction h as [|e| |m k IH|n k IH|k IH|x k IH]; simpl; intros Hs l ctx;
    try reflexivity.
  - specialize (IH Hs (send m l) ctx). run_M.
    destruct (invoke c k (send m l) ctx) as [[o c1] t1]. exact IH.
  - specialize (IH Hs (transition c n l) ctx). run_M.
    destruct (invoke c k (transition c n l) ctx) as [[o c1] t1]. exact IH.
  - specialize (IH ctx (Hs ctx) l ctx). run_M.
    destruct (invoke c (k ctx) l ctx) as [[o c1] t1]. exact IH.
  - contradiction.
Qed.

(** X9: the engine never updates the context itself: when no registered
    handler can update it, the context after [internalRun] is the context
    of the call, whether the call resolves or rejects. *)
Theorem internalRun_keeps_context (bot : Bot (T := T)) :
  all_handlers never_writes (stateManager bot) ->
  forall args ctx, (internalRun bot args ctx).1.2 = ctx.
Proof.
  intros Hall args ctx. rewrite internalRun_unfold.
  assert (E1 : (onReceivePhase bot args ctx).1.2 = ctx).
  { rewrite onReceivePhase_unfold.
    destruct (message args) as [m|]; [|reflexivity..].
    destruct (stateManager bot !! currentNodeId bot args ≫= onReceive)
      as [h|] eqn:Eh; [|reflexivity..].
    destruct (truthy_string m); [|reflexivity..].
    destruct (lookup_handlers _ _ (currentNodeId bot args) Hall)
      as [_ Hr].
    pose proof (invoke_never_writes (currentNodeId bot args) (h m)
                  (Hr h m Eh) fresh ctx) as E.
    destruct (invoke _ _ _ _) as [[o c1] t1]. exact E. }
  destruct (onReceivePhase bot args ctx) as [[[l1|e|] ctx1] tr1];
    simpl in E1; subst ctx1; [|reflexivity..].
  assert (E2 : (onEnterPhase bot args l1 ctx).1.2 = ctx).
  { rewrite onEnterPhase_unfold.
    destruct (isFirstRun args || truthy (l_next l1)); [|reflexivity..].
    destruct (stateManager bot !! finalNodeId bot args l1 ≫= onEnter)
      as [h|] eqn:Eh; [|reflexivity..].
    destruct (lookup_handlers _ _ (finalNodeId bot args l1) Hall)
      as [He _].
    pose proof (invoke_never_writes (currentNodeId bot args) h (He h Eh) l1 ctx)
      as E.
    destruct (invoke _ _ _ _) as [[o c1] t1]. exact E. }
  destruct (onEnterPhase bot args l1 ctx) as [[[l2|e|] ctx2] tr2]; exact E2.
Qed.

(** X10: a call that names a node and brings no message (none, or the
    empty string) runs no handler: it resolves at once with no messages,
    the context untouched, [done] the node's [end] flag and [next] the node
    itself unless the node is terminal. In particular [onEnter] is not
    replayed. *)
Theorem internalRun_without_message (bot : Bot (T := T)) (args : RunArgs) (ctx : T)
    (n : string) :
  node args = Some n -> n <> "" -> truthy (message args) = false ->
  internalRun bot args ctx =
    (Resolved {| messages := [];
                 next := if truthy_flag (stateManager bot !! n ≫= end_)
                         then None else Some n;
                 done := stateManager bot !! n ≫= end_ |}, ctx, []).
Proof.
  intros Hn Hne Hm.
  assert (Ht : truthy_string n = true).
  { unfold truthy_string. by destruct (String.eqb_spec n ""). }
  rewrite internalRun_unfold, (onReceivePhase_no_message _ _ _ Hm).
  rewrite onEnterPhase_unfold.
  unfold isFirstRun, response, finalNodeId, currentNodeId. rewrite Hn. simpl.
  by rewrite Ht.
Qed.

(** X11: the [next] of a response is the current node id when no
    [transition] call was made and contains the separator otherwise, so it
    is a qualified id whenever the current node id is one; and a non-empty
    [next] handed back as [node] makes the following call start from that
    node and not count as a first run. *)
Theorem next_feeds_back (bot : Bot (T := T)) (args : RunArgs) (ctx : T)
    r ctx' tr n :
  internalRun bot args ctx = (Resolved r, ctx', tr) ->
  next r = Some n ->
  (transitions tr = [] -> n = currentNodeId bot args) /\
  (transitions tr <> [] -> includes dot n = true) /\
  (includes dot (currentNodeId bot args) = true -> includes dot n = true) /\
  (n <> "" -> forall m,
     isFirstRun {| node := Some n; message := m |} = false /\
     currentNodeId bot {| node := Some n; message := m |} = n).
Proof.
  intros E Hn. destruct (transitions_internalRun _ _ _ _ _ _ E)
    as (l1 & ctx1 & tr1 & l2 & _ & -> & Hk).
  unfold response in Hn; simpl in Hn.
  destruct (truthy_flag _); [discriminate|]. injection Hn as <-.
  rewrite Hk. unfold finalKey.
  split; [|split; [|split]].
  - intros ->. reflexivity.
  - intros Hne. destruct (last (transitions tr)) as [t|] eqn:El.
    + apply resolve_includes.
    + apply last_None in El. contradiction.
  - intros Hc. destruct (last (transitions tr)); [apply resolve_includes|exact Hc].
  - intros Hne m. unfold isFirstRun, currentNodeId; simpl.
    unfold truthy_string.
    destruct (String.eqb_spec
      match last (transitions tr) with
      | Some t => resolve (or_else (node args) (defaultStartNode (config bot))) t
      | None => or_else (node args) (defaultStartNode (config bot))
      end ""); [contradiction|]. split; reflexivity.
Qed.

(** X12: [internalRun] reads the registry at the current node id and at
    the final node id, nowhere else: two bots with the same default start
    node whose registries agree on those two keys behave alike on the
    call, whatever else is registered. *)
Theorem internalRun_local (bot1 bot2 : Bot (T := T)) (args : RunArgs) (ctx : T) :
  defaultStartNode (config bot1) = defaultStartNode (config bot2) ->
  let c := currentNodeId bot1 args in
  let k := finalKey c (onReceivePhase bot1 args ctx).2 in
  stateManager bot1 !! c = stateManager bot2 !! c ->
  stateManager bot1 !! k = stateManager bot2 !! k ->
  internalRun bot1 args ctx = internalRun bot2 args ctx.
Proof.
  intros Hd c k Hc Hk.
  assert (Hcur : currentNodeId bot2 args = c)
    by (unfold c, currentNodeId; by rewrite Hd).
  assert (E1 : onReceivePhase bot1 args ctx = onReceivePhase bot2 args ctx).
  { rewrite !onReceivePhase_unfold, Hcur. fold c. by rewrite Hc. }
  rewrite !internalRun_unfold, <- E1. subst k.
  destruct (onReceivePhase bot1 args ctx) as [[[l1|e|] ctx1] tr1] eqn:E;
    [|reflexivity..].
  assert (Hf : finalNodeId bot2 args l1 = finalNodeId bot1 args l1)
    by (unfold finalNodeId; by rewrite Hcur).
  assert (Hl : stateManager bot1 !! finalNodeId bot1 args l1
               = stateManager bot2 !! finalNodeId bot1 args l1).
  { destruct (onReceivePhase_final _ _ _ _ _ _ E) as [-> _]. exact Hk. }
  assert (E2 : onEnterPhase bot1 args l1 ctx1 = onEnterPhase bot2 args l1 ctx1).
  { rewrite !onEnterPhase_unfold, Hf, Hcur. fold c. by rewrite Hl. }
  rewrite <- E2, Hf, <- Hl.
  destruct (onEnterPhase bot1 args l1 ctx1) as [[[l2|e|] ctx2] tr2];
    [|reflexivity..].
  unfold response. by rewrite Hcur.
Qed.

End Properties.

(** * The properties on the example bots *)

(** ** Where the specification's wording and the code part *)

(** C1 as stated fails: with [node] the empty string (an argument that is
    present) and no [transition] call, the default start node's [onEnter]
    is invoked all the same. *)
Lemma onEnter_on_empty_node :
  let bot := mainBot (T := unit) None in
  let args := {| node := Some ""; message := None |} in
  let tr := (internalRun bot args tt).2 in
  let tr1 := (onReceivePhase bot args tt).2 in
  node args <> None /\ transitions tr1 = [] /\
  entered tr = ["main.welcome"] /\
  ~ ((exists id, id ∈ entered tr) <-> (node args = None \/ transitions tr1 <> [])).
Proof.
  cbv zeta. split; [discriminate|]. split; [reflexivity|].
  split; [reflexivity|].
  intros [H _]. destruct H as [H|H].
  - exists "main.welcome". vm_compute. constructor.
  - discriminate.
  - apply H. reflexivity.
Qed.

(** C7 as stated fails: with [message] the empty string (a message that is
    supplied) on a node that has an [onReceive] handler, the handler is not
    invoked. *)
Lemma onReceive_skipped_on_empty_message :
  let bot := mainBot (T := unit) None in
  let args := {| node := Some "main.welcome"; message := Some "" |} in
  let tr := (internalRun bot args tt).2 in
  is_Some (message args) /\
  is_Some (stateManager bot !! currentNodeId bot args ≫= onReceive) /\
  received tr = [] /\
  ~ ((exists id m, (id, m) ∈ received tr) <->
     (is_Some (message args) /\
      is_Some (stateManager bot !! currentNodeId bot args ≫= onReceive))).
Proof.
  intros bot args tr.
  assert (H1 : is_Some (message args)) by (eexists; reflexivity).
  assert (H2 : is_Some (stateManager bot !! currentNodeId bot args ≫= onReceive))
    by (eexists; reflexivity).
  split; [exact H1|]. split; [exact H2|]. split; [reflexivity|].
  intros [_ H]. destruct (H (conj H1 H2)) as (id & m & Hin).
  vm_compute in Hin. inversion Hin.
Qed.

(** C4: the code at the specification's own scenario. The first call ends
    on ["main.welcome"], which is registered without an [end] flag, and
    [done] is undefined where the claim, and the examples of the
    documentation, have [false]; on ["a.x"], registered with [end: false],
    [done] is [false]. *)
Lemma done_undefined_on_welcome :
  stateManager (mainBot (T := unit) None) !! "main.welcome" = Some welcomeNode /\
  end_ (welcomeNode (T := unit)) = None /\
  internalRun (mainBot (T := unit) None) {| node := None; message := None |} tt =
    (Resolved {| messages := ["hi"]; next := Some "main.welcome"; done := None |},
     tt, [OnEnterCalled "main.welcome"; SendCalled "hi"]) /\
  done {| messages := ["hi"]; next := Some "main.welcome"; done := None |}
    <> Some false /\
  internalRun (crossBot (T := unit)) {| node := Some "a.x"; message := None |} tt =
    (Resolved {| messages := []; next := Some "a.x"; done := Some false |},
     tt, []).
Proof.
  split; [reflexivity|]. split; [reflexivity|]. split; [reflexivity|].
  split; [discriminate | reflexivity].
Qed.

(** C2 as stated fails: with the Twilio plugin declared before the
    authentication gate, the gate answers without calling [next] and the
    engine makes no call, but [run] resolves with the Twilio plugin's
    rewriting of that answer, not with the answer itself. *)
Lemma plugin_answer_rewritten :
  let bot := mainBot (Some [twilioPlugin docTwiml; authPlugin]) in
  let args := {| node := None; message := None |} in
  let answer := {| messages := ["Please authenticate first"];
                   next := Some "auth.login";
                   done := Some false |} in
  exists f r,
    intercept authPlugin = Some f /\
    (forall n, f n None = (Resolved answer, None, [])) /\
    run bot args None = (Resolved r, None, []) /\
    r <> answer.
Proof.
  cbv zeta. eexists _, _. split; [reflexivity|].
  split; [intros n; reflexivity|]. split; [vm_compute; reflexivity|].
  discriminate.
Qed.

(** C10 as stated fails: with [node] the empty string and a message that
    makes ["main.welcome"] move on, the default start node is the current
    node and has an [onEnter], but the [onEnter] that is invoked is that of
    ["main.bye"], the final node. *)
Lemma default_onEnter_skipped_on_empty_node :
  let bot := mainBot (T := unit) None in
  let args := {| node := Some ""; message := Some "x" |} in
  let tr := (internalRun bot args tt).2 in
  currentNodeId bot args = defaultStartNode (config bot) /\
  is_Some (stateManager bot !! defaultStartNode (config bot) ≫= onEnter) /\
  entered tr = ["main.bye"] /\
  defaultStartNode (config bot) ∉ entered tr.
Proof.
  cbv zeta. split; [reflexivity|]. split; [eexists; reflexivity|].
  split; [reflexivity|].
  intros Hin. vm_compute in Hin. inversion Hin as [|? ? ? Hin']; subst.
  inversion Hin'.
Qed.

(** ** The theorems at work *)

(** Registering ["bye"] twice in flow ["main"] keeps the second definition
    under ["main.bye"] and touches no other key. *)
Lemma Flow_node_registers_witness :
  let sm := Flow_node "main" "bye" (welcomeNode (T := unit)) ∅ in
  sm !! "main.bye" = Some welcomeNode /\
  sm !! "main.welcome" = None /\
  Flow_node "main" "bye" byeNode sm = Flow_node "main" "bye" byeNode ∅ /\
  (is_Some (stateManager (crossBot (T := unit)) !! "c.y") ->
   includes dot "c.y" = true).
Proof.
  cbv zeta.
  destruct (Flow_node_registers "main" "bye" (welcomeNode (T := unit)) ∅)
    as (H1 & H2 & H3 & _ & H5).
  split; [exact H1|]. split.
  - rewrite (H2 "main.welcome"); [reflexivity | discriminate].
  - split; [exact (H3 "main" "bye" byeNode eq_refl)|].
    exact (H5 {| defaultStartNode := "a.x"; plugins := None |} _ "c.y").
Defined.

(** From ["a.x"] the bare target ["b"] resolves to ["a.b"] and the
    qualified ["c.y"] to itself: the [onReceive] of ["a.x"] leaves ["c.y"]
    in [next], and after the move to flow ["c"] the [onEnter] of ["c.y"]
    still resolves ["b"] to ["a.b"], which is the [next] of the response. *)
Lemma transition_resolution_witness :
  let args := {| node := Some "a.x"; message := Some "go" |} in
  l_next (transition "a.x" "b" fresh) = Some "a.b" /\
  l_next (transition "a.x" "c.y" fresh) = Some "c.y" /\
  onReceivePhase (crossBot (T := unit)) args tt =
    (Resolved {| l_messages := []; l_next := Some "c.y" |}, tt,
     [OnReceiveCalled "a.x" "go"; TransitionCalled "c.y"]) /\
  finalNodeId (crossBot (T := unit)) args
    {| l_messages := []; l_next := Some "c.y" |} = "c.y" /\
  (forall l2 ctx2 tr2,
     onEnterPhase (crossBot (T := unit)) args
       {| l_messages := []; l_next := Some "c.y" |} tt = (Resolved l2, ctx2, tr2) ->
     l_next l2 = Some "a.b") /\
  next {| messages := ["in c"]; next := Some "a.b"; done := None |} = Some "a.b".
Proof.
  cbv zeta.
  destruct (transition_resolution (crossBot (T := unit))
              {| node := Some "a.x"; message := Some "go" |})
    as (H1 & _ & _ & H4 & _ & H6 & H7 & H8).
  split; [exact (proj2 (H1 "b" fresh))|].
  split; [exact (proj2 (H1 "c.y" fresh))|].
  split; [|split; [|split]].
  - refine (H4 tt "go" (fun _ => Transition "c.y" Return) eq_refl _ eq_refl).
    discriminate.
  - exact (proj2 (H6 tt {| l_messages := []; l_next := Some "c.y" |} tt
                    [OnReceiveCalled "a.x" "go"; TransitionCalled "c.y"] "c.y"
                    eq_refl eq_refl)).
  - intros l2 ctx2 tr2 E.
    refine (H7 _ tt l2 ctx2 tr2 "b" E _).
    vm_compute in E. injection E as _ _ <-. reflexivity.
  - exact (H8 tt {| messages := ["in c"]; next := Some "a.b"; done := None |} tt
             [OnReceiveCalled "a.x" "go"; TransitionCalled "c.y";
              OnEnterCalled "c.y"; SendCalled "in c"; TransitionCalled "b"]
             "b" eq_refl eq_refl).
Defined.

(** The first call invokes [onEnter] of ["main.welcome"], which sends its
    greeting; a message on ["main.welcome"] moves to ["main.bye"] and
    invokes its [onEnter]; a message on ["main.bye"], which has no
    [onReceive], invokes none and the call is the bare response. *)
Lemma onEnter_invoked_iff_witness :
  entered (internalRun (mainBot (T := unit) None)
             {| node := None; message := None |} tt).2 = ["main.welcome"] /\
  "main.bye" ∈ entered (internalRun (mainBot (T := unit) None)
             {| node := Some "main.welcome"; message := Some "x" |} tt).2 /\
  entered (internalRun (mainBot (T := unit) None)
             {| node := Some "main.bye"; message := Some "x" |} tt).2 = [] /\
  internalRun (mainBot (T := unit) None) {| node := None; message := None |} tt =
    (Resolved {| messages := ["hi"]; next := Some "main.welcome"; done := None |},
     tt, [OnEnterCalled "main.welcome"; SendCalled "hi"]) /\
  internalRun (mainBot (T := unit) None)
    {| node := Some "main.bye"; message := Some "x" |} tt =
    (Resolved {| messages := []; next := None; done := Some true |}, tt, []).
Proof.
  split; [|split; [|split; [|split]]].
  - destruct (onEnter_invoked_iff (mainBot (T := unit) None)
                {| node := None; message := None |} tt) as (_ & _ & _ & H & _).
    exact (H eq_refl eq_refl).
  - destruct (onEnter_invoked_iff (mainBot (T := unit) None)
                {| node := Some "main.welcome"; message := Some "x" |} tt)
      as (_ & _ & H & _).
    apply (H {| l_messages := []; l_next := Some "main.bye" |} eq_refl).
    split; [reflexivity|]. split; [eexists; reflexivity|].
    right; right. discriminate.
  - destruct (onEnter_invoked_iff (mainBot (T := unit) None)
                {| node := Some "main.bye"; message := Some "x" |} tt)
      as (_ & _ & _ & _ & H & _).
    apply (H "main.bye" fresh eq_refl); [discriminate | reflexivity | reflexivity].
  - destruct (onEnter_invoked_iff (mainBot (T := unit) None)
                {| node := None; message := None |} tt)
      as (_ & _ & _ & _ & _ & _ & H & _).
    apply (H fresh (Send "hi" Return) eq_refl eq_refl). by left.
  - destruct (onEnter_invoked_iff (mainBot (T := unit) None)
                {| node := Some "main.bye"; message := Some "x" |} tt)
      as (_ & _ & _ & _ & _ & _ & _ & H).
    apply (H fresh eq_refl). right.
    split; [discriminate|]. split; [discriminate | reflexivity].
Defined.

(** A message on ["main.welcome"] invokes its [onReceive] first, and the
    [onEnter] phase follows the handler's calls. *)
Lemma onReceive_invoked_iff_witness :
  let bot := mainBot (T := unit) None in
  let args := {| node := Some "main.welcome"; message := Some "x" |} in
  ("main.welcome", "x") ∈ received (internalRun bot args tt).2 /\
  exists tr2,
    (internalRun bot args tt).2 =
      OnReceiveCalled "main.welcome" "x" :: [TransitionCalled "bye"] ++ tr2.
Proof.
  cbv zeta.
  destruct (onReceive_invoked_iff (mainBot (T := unit) None)
              {| node := Some "main.welcome"; message := Some "x" |} tt)
    as (H1 & _ & H3).
  split.
  - apply H1. split; [reflexivity|]. split; [reflexivity|].
    split; [discriminate | eexists; reflexivity].
  - destruct (H3 "x" (fun _ => Transition "bye" Return) eq_refl) as [_ H];
      [discriminate | reflexivity |].
    destruct (H {| l_messages := []; l_next := Some "main.bye" |} tt
                [TransitionCalled "bye"] eq_refl) as (tr2 & Htr & _).
    exists tr2. exact Htr.
Defined.

(** On the way to ["c.y"] the only message is the one sent on entry. *)
Lemma messages_in_send_order_witness :
  let r := {| messages := ["in c"]; next := Some "a.b"; done := None |} in
  let tr := [OnReceiveCalled "a.x" "go"; TransitionCalled "c.y";
             OnEnterCalled "c.y"; SendCalled "in c"; TransitionCalled "b"] in
  messages r = sent tr.
Proof.
  cbv zeta.
  exact (proj1 (messages_in_send_order (crossBot (T := unit))
                  {| node := None; message := Some "go" |} tt _ tt _ eq_refl)).
Defined.

(** Ending on the terminal ["main.bye"], whose [onEnter] calls
    [transition], the response is done and has no [next]. *)
Lemma terminal_response_witness :
  let r := {| messages := ["later"]; next := None; done := Some true |} in
  (done r = Some true <-> next r = None) /\ done r = Some true /\ next r = None.
Proof.
  cbv zeta.
  destruct (terminal_response (mainBot (T := unit) None)
              {| node := Some "main.welcome"; message := Some "x" |} tt
              {| messages := ["later"]; next := None; done := Some true |} tt
              [OnReceiveCalled "main.welcome" "x"; TransitionCalled "bye";
               OnEnterCalled "main.bye"; SendCalled "later";
               TransitionCalled "welcome"] eq_refl) as [H1 H2].
  split; [exact H1|].
  exact (H2 {| l_messages := []; l_next := Some "main.bye" |} tt
            [OnReceiveCalled "main.welcome" "x"; TransitionCalled "bye"]
            byeNode eq_refl eq_refl eq_refl).
Defined.

(** Ending on ["c.y"], which has no [end] flag, [done] is undefined and
    [next] is the resolution of the last [transition] call. *)
Lemma nonterminal_response_witness :
  let r := {| messages := ["in c"]; next := Some "a.b"; done := None |} in
  done r = None /\ done r <> Some true /\ next r = Some "a.b".
Proof.
  cbv zeta.
  refine (nonterminal_response (crossBot (T := unit))
            {| node := None; message := Some "go" |} tt
            {| messages := ["in c"]; next := Some "a.b"; done := None |} tt
            [OnReceiveCalled "a.x" "go"; TransitionCalled "c.y";
             OnEnterCalled "c.y"; SendCalled "in c"; TransitionCalled "b"]
            {| l_messages := []; l_next := Some "c.y" |} tt
            [OnReceiveCalled "a.x" "go"; TransitionCalled "c.y"]
            eq_refl eq_refl _).
  discriminate.
Defined.

(** A call on the unregistered ["a.nowhere"] resolves with no message and
    [next] unchanged; a message on ["a.z"] moves to the unregistered
    ["a.ghost"] and resolves with the message sent while receiving. *)
Lemma unregistered_node_witness :
  internalRun (crossBot (T := unit))
    {| node := Some "a.nowhere"; message := Some "hello" |} tt =
    (Resolved {| messages := []; next := Some "a.nowhere"; done := None |},
     tt, []) /\
  internalRun (crossBot (T := unit))
    {| node := Some "a.z"; message := Some "hello" |} tt =
    (Resolved {| messages := ["hello"]; next := Some "a.ghost"; done := None |},
     tt, [OnReceiveCalled "a.z" "hello"; SendCalled "hello";
          TransitionCalled "ghost"]).
Proof.
  split.
  - exact (proj1 (unregistered_node (crossBot (T := unit))
                    {| node := Some "a.nowhere"; message := Some "hello" |} tt)
                 eq_refl).
  - exact (proj2 (unregistered_node (crossBot (T := unit))
                    {| node := Some "a.z"; message := Some "hello" |} tt)
                 {| l_messages := ["hello"]; l_next := Some "a.ghost" |} tt
                 [OnReceiveCalled "a.z" "hello"; SendCalled "hello";
                  TransitionCalled "ghost"] eq_refl eq_refl).
Defined.

(** With the gate declared first and no user id, [run] resolves with the
    gate's answer; with the always-answering plugin between two Twilio
    plugins, neither the inner one nor the engine matters; and with the
    Twilio plugin declared before the gate and no user id, the gate's
    answer is what the Twilio plugin receives, and the engine does not
    matter either. *)
Lemma run_plugin_chain_witness :
  run (mainBot (Some [authPlugin; twilioPlugin docTwiml]))
      {| node := None; message := None |} None =
    (Resolved {| messages := ["Please authenticate first"];
                 next := Some "auth.login";
                 done := Some false |}, None, []) /\
  run (mainBot (T := unit)
         (Some [twilioPlugin docTwiml; closedPlugin; twilioPlugin docTwiml]))
      {| node := None; message := None |} =
    chain [twilioPlugin docTwiml; closedPlugin] (reject "unused") /\
  chain [authPlugin]
    (internalRun (mainBot (Some [twilioPlugin docTwiml; authPlugin]))
       {| node := None; message := None |}) None =
    (Resolved {| messages := ["Please authenticate first"];
                 next := Some "auth.login";
                 done := Some false |}, None, []) /\
  run (mainBot (Some [twilioPlugin docTwiml; authPlugin]))
      {| node := None; message := None |} None =
    chain [twilioPlugin docTwiml; authPlugin] (reject "unused") None.
Proof.
  split; [|split; [|split]].
  - refine (proj1 (proj2 (proj2 (run_plugin_chain
             (mainBot (Some [authPlugin; twilioPlugin docTwiml]))
             {| node := None; message := None |})))
             [] authPlugin _ [twilioPlugin docTwiml] None eq_refl
             (List.Forall_nil _) eq_refl _ (reject "unused")).
    intros n n'. reflexivity.
  - refine (proj1 (proj2 (run_plugin_chain
             (mainBot (T := unit)
                (Some [twilioPlugin docTwiml; closedPlugin; twilioPlugin docTwiml]))
             {| node := None; message := None |}))
             [twilioPlugin docTwiml] closedPlugin _ [twilioPlugin docTwiml] eq_refl
             eq_refl _ [] (reject "unused")).
    intros n n'. reflexivity.
  - refine (proj2 (proj1 (proj2 (proj2 (proj2 (run_plugin_chain
             (mainBot (Some [twilioPlugin docTwiml; authPlugin]))
             {| node := None; message := None |}))))
             [twilioPlugin docTwiml] authPlugin _ [] eq_refl eq_refl)
             None _ (reject "unused")).
    intros n n'. reflexivity.
  - refine (proj2 (proj2 (proj2 (proj2 (run_plugin_chain
             (mainBot (Some [twilioPlugin docTwiml; authPlugin]))
             {| node := None; message := None |}))))
             (fun c => c = None) [twilioPlugin docTwiml] authPlugin _ []
             eq_refl eq_refl _ _ None eq_refl [] (reject "unused")).
    + constructor; [apply twilioPlugin_stays_within | constructor].
    + intros c -> n n'. reflexivity.
Defined.

(** ** The further properties at work *)

Lemma mainBot_handlers {T : Type} (P : Handler (T := T) -> Prop) ps :
  P (Send "hi" Return) -> P (Transition "bye" Return) ->
  P (Send "later" (Transition "welcome" Return)) ->
  all_handlers P (stateManager (mainBot ps)).
Proof.
  intros Hw Hr Hb k n Hk. unfold mainBot, Bot_flow, Bot_new, Flow_node in Hk.
  simpl in Hk.
  apply lookup_insert_Some in Hk as [[_ <-]|[_ Hk]].
  - split; [intros h [= <-]; exact Hb | intros h m [=]].
  - apply lookup_insert_Some in Hk as [[_ <-]|[_ Hk]].
    + split; [intros h [= <-]; exact Hw | intros h m [= <-]; exact Hr].
    + by rewrite lookup_empty in Hk.
Qed.

(** Registering ["welcome"] twice in one builder keeps the second
    definition and leaves the other flows alone. *)
Lemma Bot_flow_lookup_witness :
  let bot := Bot_flow "main" [("welcome", byeNode); ("welcome", welcomeNode)]
               (crossBot (T := unit)) in
  stateManager bot !! "main.welcome" = Some welcomeNode /\
  stateManager bot !! "a.x" = stateManager crossBot !! "a.x".
Proof.
  cbv zeta.
  destruct (Bot_flow_lookup "main"
              [("welcome", byeNode); ("welcome", welcomeNode)]
              (crossBot (T := unit))) as (_ & H2 & H3).
  split.
  - apply (H3 [("welcome", byeNode)] "welcome" welcomeNode [] eq_refl).
    intros id' h' Hin. inversion Hin.
  - apply H2. intros id h Hin.
    apply elem_of_cons in Hin as [[= -> ->]|Hin]; [discriminate|].
    apply elem_of_cons in Hin as [[= -> ->]|Hin]; [discriminate|].
    inversion Hin.
Defined.

(** Flows ["a"] and ["c"] keep their nodes apart. *)
Lemma Flow_node_keys_witness :
  Flow_node "c" "y" byeNode (Flow_node "a" "x" (welcomeNode (T := unit)) ∅)
    !! "a.x" = Some welcomeNode.
Proof.
  refine (proj1 (proj2 (Flow_node_keys "a" "x" "c" "y" welcomeNode byeNode ∅))
            eq_refl eq_refl _).
  discriminate.
Defined.

(** Flow ["main"] defined in two pieces still has its first node. *)
Lemma Bot_flow_in_pieces_witness :
  is_Some (stateManager
             (Bot_flow "main" [("bye", byeNode)]
                (Bot_flow "main" [("welcome", welcomeNode)]
                   (crossBot (T := unit)))) !! "main.welcome").
Proof.
  refine (proj2 (Bot_flow_in_pieces "main" [("welcome", welcomeNode)]
                   [("bye", byeNode)] (crossBot (T := unit)))
            "welcome" welcomeNode _ _).
  - left.
  - intros id' h' Hin.
    apply elem_of_cons in Hin as [[= -> ->]|Hin]; [discriminate|].
    inversion Hin.
Defined.

(** Flows ["main"] and ["extra"] in either order. *)
Lemma Bot_flow_commute_witness :
  Bot_flow "extra" [("bye", byeNode)]
    (Bot_flow "main" [("welcome", welcomeNode)] (crossBot (T := unit)))
  = Bot_flow "main" [("welcome", welcomeNode)]
      (Bot_flow "extra" [("bye", byeNode)] crossBot).
Proof.
  apply (Bot_flow_commute "main" "extra"); [reflexivity | reflexivity |].
  discriminate.
Defined.

(** From ["a.x"] the bare target ["b"] finds the node registered as ["b"]
    in flow ["a"]. *)
Lemma transition_to_sibling_witness :
  Flow_node "a" "b" (byeNode (T := unit)) ∅ !! "a.b" = Some byeNode.
Proof.
  destruct (transition_to_sibling "a" "x" "b" fresh (byeNode (T := unit)) ∅
              eq_refl) as (_ & H & _).
  exact (H eq_refl "a.b" eq_refl).
Defined.

(** A plugin without [intercept] before the Twilio plugin changes nothing,
    and alone it leaves the engine's response as it is. *)
Lemma run_ignores_plugins_without_intercept_witness :
  run (withPlugins (Some [{| intercept := None |}; twilioPlugin docTwiml])
         (mainBot (T := unit) None)) {| node := None; message := None |}
  = run (withPlugins (Some [twilioPlugin docTwiml]) (mainBot None))
      {| node := None; message := None |} /\
  run (withPlugins (Some [{| intercept := None |}]) (mainBot (T := unit) None))
      {| node := None; message := None |}
  = internalRun (mainBot None) {| node := None; message := None |}.
Proof.
  split.
  - exact (proj1 (run_ignores_plugins_without_intercept
                    (mainBot (T := unit) None)
                    [{| intercept := None |}; twilioPlugin docTwiml]
                    {| node := None; message := None |})).
  - refine (proj2 (proj2 (run_ignores_plugins_without_intercept
                    (mainBot (T := unit) None) [{| intercept := None |}]
                    {| node := None; message := None |})) _).
    constructor; [reflexivity | constructor].
Defined.

(** No handler of the example bot throws and all of them return, so every
    call resolves. *)
Lemma internalRun_resolves_witness :
  exists r ctx' tr,
    internalRun (mainBot (T := unit) None)
      {| node := Some "main.welcome"; message := Some "x" |} tt
    = (Resolved r, ctx', tr).
Proof.
  apply (proj2 (internalRun_resolves (mainBot (T := unit) None)
                  (mainBot_handlers never_throws None I I I))).
  apply mainBot_handlers; exact I.
Defined.

(** No handler of the example bot writes the context, so it comes back as
    it went in. *)
Lemma internalRun_keeps_context_witness :
  (internalRun (mainBot (T := nat) None)
     {| node := Some "main.welcome"; message := Some "x" |} 7).1.2 = 7.
Proof.
  apply internalRun_keeps_context.
  apply mainBot_handlers; exact I.
Defined.

(** Naming ["main.welcome"] without a message does not greet again. *)
Lemma internalRun_without_message_witness :
  internalRun (mainBot (T := unit) None)
    {| node := Some "main.welcome"; message := None |} tt
  = (Resolved {| messages := []; next := Some "main.welcome"; done := None |},
     tt, []).
Proof.
  apply (internalRun_without_message (mainBot (T := unit) None)
           {| node := Some "main.welcome"; message := None |} tt
           "main.welcome" eq_refl); [discriminate | reflexivity].
Defined.

(** The response of the call that ends on ["c.y"] names ["a.b"], and
    handing it back continues from ["a.b"]. *)
Lemma next_feeds_back_witness :
  includes dot "a.b" = true /\
  isFirstRun {| node := Some "a.b"; message := Some "again" |} = false /\
  currentNodeId (crossBot (T := unit))
    {| node := Some "a.b"; message := Some "again" |} = "a.b".
Proof.
  destruct (next_feeds_back (crossBot (T := unit))
              {| node := None; message := Some "go" |} tt
              {| messages := ["in c"]; next := Some "a.b"; done := None |} tt
              [OnReceiveCalled "a.x" "go"; TransitionCalled "c.y";
               OnEnterCalled "c.y"; SendCalled "in c"; TransitionCalled "b"]
              "a.b" eq_refl eq_refl) as (_ & H2 & _ & H4).
  split; [apply H2; discriminate|].
  apply H4. discriminate.
Defined.

(** A flow added to the example bot does not change a call that stays in
    flow ["main"]. *)
Lemma internalRun_local_witness :
  internalRun (mainBot (T := unit) None)
    {| node := Some "main.welcome"; message := Some "x" |} tt
  = internalRun (Bot_flow "extra" [("bye", welcomeNode)] (mainBot None))
      {| node := Some "main.welcome"; message := Some "x" |} tt.
Proof.
  apply internalRun_local; reflexivity.
Defined.

(** With [node] the empty string and no message the default start node
    greets; with a message it moves on and ["main.bye"] is entered; and
    the empty message on ["main.welcome"] leaves the locals as they
    were. *)
Lemma empty_strings_absent_witness :
  internalRun (mainBot (T := unit) None) {| node := Some ""; message := None |} tt =
    (Resolved {| messages := ["hi"]; next := Some "main.welcome"; done := None |},
     tt, [OnEnterCalled "main.welcome"; SendCalled "hi"]) /\
  internalRun (mainBot (T := unit) None)
    {| node := Some ""; message := Some "x" |} tt =
    (Resolved {| messages := ["later"]; next := None; done := Some true |}, tt,
     [OnReceiveCalled "main.welcome" "x"; TransitionCalled "bye";
      OnEnterCalled "main.bye"; SendCalled "later"; TransitionCalled "welcome"]) /\
  onReceivePhase (mainBot (T := unit) None)
    {| node := Some "main.welcome"; message := Some "" |} tt =
    (Resolved fresh, tt, []) /\
  run (mainBot (T := unit) None) {| node := Some ""; message := None |} tt =
    (Resolved {| messages := ["hi"]; next := Some "main.welcome"; done := None |},
     tt, [OnEnterCalled "main.welcome"; SendCalled "hi"]).
Proof.
  destruct (empty_strings_absent (mainBot (T := unit) None)
              (Some "main.welcome") None)
    as (_ & _ & _ & _ & _ & _ & [H7 _] & _ & H9 & H10).
  destruct (empty_strings_absent (mainBot (T := unit) None)
              None (Some "x")) as (_ & _ & _ & _ & _ & _ & _ & H8 & _).
  split; [|split; [|split]].
  - exact (H9 tt (Send "hi" Return) eq_refl eq_refl).
  - exact (H8 tt {| l_messages := []; l_next := Some "main.bye" |} tt
             [OnReceiveCalled "main.welcome" "x"; TransitionCalled "bye"]
             (Send "later" (Transition "welcome" Return)) eq_refl eq_refl).
  - exact (H10 tt).
  - rewrite H7. exact (H9 tt (Send "hi" Return) eq_refl eq_refl).
Defined.
